(** * Pomodoro timer engine: a shallow embedding of [PomodoroTimer]

    The repository holds two copies of the engine:
    - [src/app.js], the engine with an absolute end time ([endAt]) and
      auto-start (module [App]);
    - [src/unnamed/part_000], the earlier copy that counts the remaining time
      down by per-tick deltas (module [Legacy]).

    Conventions of the embedding.
    - JavaScript numbers that the engine handles are integral (minutes from
      [clampInt], milliseconds from [Date.now()]); they are modelled by [Z].
    - Every call of [Date.now()] is an explicit argument of the method that
      makes it; a method that reads the clock several times takes several
      readings.
    - A method is a function from the timer object to the updated object and
      the list of calls it makes to its collaborators, in program order. *)

From Stdlib Require Import ZArith List Bool Lia String Ascii.
Import ListNotations.
Local Open Scope Z_scope.

(** ** Data shared by both copies *)

(** [const Mode = Object.freeze({ Work, Short, Long })]. *)
Inductive Mode : Type := Work | Short | Long.

Definition mode_name (m : Mode) : string :=
  match m with
  | Work => "Work"
  | Short => "Short Break"
  | Long => "Long Break"
  end%string.

(** The fields of the settings record that the engine reads.  The
    presentation fields (theme, ambient motion, alarm sound and volume,
    notification toggle) are read by the collaborators only. *)
Record Settings : Type := mkSettings {
  workMinutes : Z;
  shortMinutes : Z;
  longMinutes : Z;
  cyclesPerRound : Z;
  autoStart : bool
}.

(** [defaultSettings]. *)
Definition defaultSettings : Settings :=
  {| workMinutes := 25; shortMinutes := 5; longMinutes := 15;
     cyclesPerRound := 4; autoStart := false |}.

(** The object handed to the listener by [_emit]. *)
Record Snapshot : Type := mkSnapshot {
  snap_mode : Mode;
  snap_remainingMs : Z;
  snap_cycleInRound : Z;
  snap_round : Z;
  snap_totalMs : Z;
  snap_isRunning : bool;
  snap_modeChanged : bool
}.

(** Calls that leave the engine. *)
Inductive Event : Type :=
| SetInterval                      (* setInterval(callback, 250) *)
| ClearInterval                    (* clearInterval(this._intervalId) *)
| Beep                             (* beep() *)
| Notify (title body : string)     (* notify(title, body) *)
| Emit (snap : Snapshot).          (* this._listener(snapshot) *)

Definition is_alarm (e : Event) : bool :=
  match e with
  | Beep | Notify _ _ => true
  | _ => false
  end.

(** The alarm and notification calls of a trace, in order. *)
Definition alarms (l : list Event) : list Event := filter is_alarm l.

(** The snapshots of a trace, in order. *)
Fixpoint snapshots (l : list Event) : list Snapshot :=
  match l with
  | [] => []
  | Emit s :: r => s :: snapshots r
  | _ :: r => snapshots r
  end.

(** Sequencing of methods: the second runs on the object left by the first
    and its calls come after. *)
Definition andThen {T : Type} (r : T * list Event) (c : T -> T * list Event)
  : T * list Event :=
  let (t, l) := r in
  let (t', l') := c t in
  (t', l ++ l').

Notation "r >> c" := (andThen r c) (at level 50, left associativity).

Definition modify {T : Type} (f : T -> T) (t : T) : T * list Event := (f t, []).
Definition call {T : Type} (e : Event) (t : T) : T * list Event := (t, [e]).
Definition nop {T : Type} (t : T) : T * list Event := (t, []).

(** [Date.now()] readings are nondecreasing along a list, starting at [clk]. *)
Fixpoint chronological (clk : Z) (ts : list Z) : Prop :=
  match ts with
  | [] => True
  | t :: r => clk <= t /\ chronological t r
  end.

(** Minutes are at least 1 and a round has at least one cycle. *)
Definition valid_settings (c : Settings) : Prop :=
  1 <= workMinutes c /\ 1 <= shortMinutes c /\ 1 <= longMinutes c /\
  1 <= cyclesPerRound c.

(** ** [src/app.js] *)
Module App.

Record Timer : Type := mkTimer {
  settings : Settings;
  mode : Mode;
  cycleInRound : Z;
  round : Z;
  isRunning : bool;
  startedAt : option Z;
  endAt : option Z;
  remainingMs : Z;
  _intervalId : bool;        (* true: holds the id of a live interval *)
  _lastTick : option Z;
  _listener : bool           (* true: a listener has been registered *)
}.

Definition set_settings (v : Settings) (t : Timer) : Timer :=
  mkTimer v (mode t) (cycleInRound t) (round t) (isRunning t) (startedAt t)
    (endAt t) (remainingMs t) (_intervalId t) (_lastTick t) (_listener t).
Definition set_mode (v : Mode) (t : Timer) : Timer :=
  mkTimer (settings t) v (cycleInRound t) (round t) (isRunning t) (startedAt t)
    (endAt t) (remainingMs t) (_intervalId t) (_lastTick t) (_listener t).
Definition set_cycleInRound (v : Z) (t : Timer) : Timer :=
  mkTimer (settings t) (mode t) v (round t) (isRunning t) (startedAt t)
    (endAt t) (remainingMs t) (_intervalId t) (_lastTick t) (_listener t).
Definition set_round (v : Z) (t : Timer) : Timer :=
  mkTimer (settings t) (mode t) (cycleInRound t) v (isRunning t) (startedAt t)
    (endAt t) (remainingMs t) (_intervalId t) (_lastTick t) (_listener t).
Definition set_isRunning (v : bool) (t : Timer) : Timer :=
  mkTimer (settings t) (mode t) (cycleInRound t) (round t) v (startedAt t)
    (endAt t) (remainingMs t) (_intervalId t) (_lastTick t) (_listener t).
Definition set_startedAt (v : option Z) (t : Timer) : Timer :=
  mkTimer (settings t) (mode t) (cycleInRound t) (round t) (isRunning t) v
    (endAt t) (remainingMs t) (_intervalId t) (_lastTick t) (_listener t).
Definition set_endAt (v : option Z) (t : Timer) : Timer :=
  mkTimer (settings t) (mode t) (cycleInRound t) (round t) (isRunning t)
    (startedAt t) v (remainingMs t) (_intervalId t) (_lastTick t) (_listener t).
Definition set_remainingMs (v : Z) (t : Timer) : Timer :=
  mkTimer (settings t) (mode t) (cycleInRound t) (round t) (isRunning t)
    (startedAt t) (endAt t) v (_intervalId t) (_lastTick t) (_listener t).
Definition set_intervalId (v : bool) (t : Timer) : Timer :=
  mkTimer (settings t) (mode t) (cycleInRound t) (round t) (isRunning t)
    (startedAt t) (endAt t) (remainingMs t) v (_lastTick t) (_listener t).
Definition set_lastTick (v : option Z) (t : Timer) : Timer :=
  mkTimer (settings t) (mode t) (cycleInRound t) (round t) (isRunning t)
    (startedAt t) (endAt t) (remainingMs t) (_intervalId t) v (_listener t).
Definition set_listener (v : bool) (t : Timer) : Timer :=
  mkTimer (settings t) (mode t) (cycleInRound t) (round t) (isRunning t)
    (startedAt t) (endAt t) (remainingMs t) (_intervalId t) (_lastTick t) v.

Definition Cmd : Type := Timer -> Timer * list Event.

(** [_modeToMs(mode)]. *)
Definition _modeToMs (t : Timer) (m : Mode) : Z :=
  let mins :=
    match m with
    | Work => workMinutes (settings t)
    | Short => shortMinutes (settings t)
    | Long => longMinutes (settings t)
    end in
  mins * 60 * 1000.

(** [constructor(settings)]. *)
Definition new (s : Settings) : Timer :=
  let t := mkTimer s Work 1 1 false None None 0 false None false in
  set_remainingMs (_modeToMs t (mode t)) t.

(** [onChange(listener)]. *)
Definition onChange : Cmd := modify (set_listener true).

(** [_emit(modeChanged = false)]. *)
Definition _emit (modeChanged : bool) : Cmd := fun t =>
  if _listener t then
    (t, [Emit {| snap_mode := mode t;
                 snap_remainingMs := remainingMs t;
                 snap_cycleInRound := cycleInRound t;
                 snap_round := round t;
                 snap_totalMs := _modeToMs t (mode t);
                 snap_isRunning := isRunning t;
                 snap_modeChanged := modeChanged |}])
  else (t, []).

(** [_ensureTicker()]: installs the interval unless one is live. *)
Definition _ensureTicker : Cmd := fun t =>
  if _intervalId t then (t, [])
  else (set_intervalId true t, [SetInterval]).

(** [start()]. *)
Definition start (now : Z) : Cmd := fun t =>
  if isRunning t then (t, [])
  else
    let t := set_isRunning true t in
    let t := set_startedAt (Some now) t in
    let t := set_endAt (Some (now + remainingMs t)) t in
    let t := set_lastTick (Some now) t in
    _ensureTicker t.

(** [pause()]. *)
Definition pause (now : Z) : Cmd := fun t =>
  if negb (isRunning t) then (t, [])
  else
    let t := set_isRunning false t in
    let t := match endAt t with
             | Some e => set_remainingMs (Z.max 0 (e - now)) t
             | None => t
             end in
    let t := set_endAt None t in
    if _intervalId t then (set_intervalId false t, [ClearInterval])
    else (t, []).

(** [reset()]. *)
Definition reset (now : Z) : Cmd := fun t =>
  pause now t
  >> modify (fun t => set_remainingMs (_modeToMs t (mode t)) t)
  >> modify (set_startedAt None)
  >> modify (set_endAt None).

(** [_advanceMode()]. *)
Definition _advanceMode (now : Z) : Cmd := fun t =>
  let t :=
    match mode t with
    | Work =>
        let isEndOfRound := cyclesPerRound (settings t) <=? cycleInRound t in
        let t := set_mode (if isEndOfRound then Long else Short) t in
        if isEndOfRound then
          let t := set_cycleInRound 1 t in
          set_round (round t + 1) t
        else set_cycleInRound (cycleInRound t + 1) t
    | _ => set_mode Work t
    end in
  let t := set_remainingMs (_modeToMs t (mode t)) t in
  let shouldAutoStart := autoStart (settings t) in
  (if shouldAutoStart then
     let t := set_isRunning true t in
     let t := set_startedAt (Some now) t in
     let t := set_endAt (Some (now + remainingMs t)) t in
     _ensureTicker t
   else
     let t := set_isRunning false t in
     let t := set_startedAt None t in
     let t := set_endAt None t in
     (t, []))
  >> _emit true.

(** [skip()]. *)
Definition skip (now : Z) : Cmd := _advanceMode now.

(** [_onComplete()]: [nowP] is read by [pause], [nowA] by [_advanceMode]. *)
Definition _onComplete (nowP nowA : Z) : Cmd := fun t =>
  pause nowP t
  >> call Beep
  >> (fun t => (t, [Notify (mode_name (mode t) ++ " completed") "Time to switch!"]))
  >> _advanceMode nowA.

(** The callback installed by [_ensureTicker]. *)
Definition tick (now nowP nowA : Z) : Cmd := fun t =>
  if negb (isRunning t) then (t, [])
  else
    let t := set_lastTick (Some now) t in
    let t := match endAt t with
             | Some e => set_remainingMs (Z.max 0 (e - now)) t
             | None => t
             end in
    if remainingMs t =? 0 then _onComplete nowP nowA t
    else _emit false t.

(** The host runs the callback only while the interval is live. *)
Definition interval_fire (now nowP nowA : Z) : Cmd := fun t =>
  if _intervalId t then tick now nowP nowA t else (t, []).

(** [setSettings(nextSettings)]: [nowP] is read by [pause], [nowS] by
    [start]. *)
Definition setSettings (next : Settings) (nowP nowS : Z) : Cmd := fun t =>
  let preservedRunning := isRunning t in
  pause nowP t
  >> modify (set_settings next)
  >> modify (fun t => set_remainingMs (_modeToMs t (mode t)) t)
  >> (if preservedRunning then start nowS else nop)
  >> _emit true.

(** The click handler of the mode buttons (direct mode selection). *)
Definition setMode (targetMode : Mode) (now : Z) : Cmd := fun t =>
  (if isRunning t then pause now t else (t, []))
  >> modify (set_mode targetMode)
  >> modify (fun t => set_remainingMs (_modeToMs t targetMode) t)
  >> modify (set_startedAt None)
  >> modify (set_endAt None)
  >> _emit true.

(** What can happen to the engine: its methods, the interval firing, the
    mode buttons, and a bare [_emit] as the click handlers issue it. *)
Inductive Op : Type :=
| OpOnChange
| OpStart (now : Z)
| OpPause (now : Z)
| OpReset (now : Z)
| OpSkip (now : Z)
| OpTick (now nowP nowA : Z)
| OpSetSettings (next : Settings) (nowP nowS : Z)
| OpSetMode (targetMode : Mode) (now : Z)
| OpEmitNow (modeChanged : bool).

Definition step (o : Op) : Cmd :=
  match o with
  | OpOnChange => onChange
  | OpStart now => start now
  | OpPause now => pause now
  | OpReset now => reset now
  | OpSkip now => skip now
  | OpTick now nowP nowA => interval_fire now nowP nowA
  | OpSetSettings next nowP nowS => setSettings next nowP nowS
  | OpSetMode m now => setMode m now
  | OpEmitNow b => _emit b
  end.

Fixpoint run (ops : list Op) (t : Timer) : Timer * list Event :=
  match ops with
  | [] => (t, [])
  | o :: r => step o t >> run r
  end.

(** The clock readings an operation makes, in order. *)
Definition op_times (o : Op) : list Z :=
  match o with
  | OpOnChange | OpEmitNow _ => []
  | OpStart now | OpPause now | OpReset now | OpSkip now | OpSetMode _ now => [now]
  | OpTick now nowP nowA => [now; nowP; nowA]
  | OpSetSettings _ nowP nowS => [nowP; nowS]
  end.

(** Every configuration passed to [setSettings] is valid. *)
Definition valid_op (o : Op) : Prop :=
  match o with
  | OpSetSettings next _ _ => valid_settings next
  | _ => True
  end.

(** Interval firings at the given clock readings. *)
Fixpoint firings (later : list (Z * Z * Z)) : list Op :=
  match later with
  | [] => []
  | (n, p, a) :: r => OpTick n p a :: firings r
  end.

(** The engine's state invariant at clock reading [clk]: the configuration
    is valid, [endAt] is set exactly while running, [remainingMs] lies within
    the full duration of the mode, and the end time is no further ahead than
    that duration. *)
Definition Inv (clk : Z) (t : Timer) : Prop :=
  valid_settings (settings t) /\
  (isRunning t = true <-> endAt t <> None) /\
  0 <= remainingMs t <= _modeToMs t (mode t) /\
  (forall e, endAt t = Some e -> e <= clk + _modeToMs t (mode t)).

(** Along a run, no [setSettings] brings [cyclesPerRound] below the
    [cycleInRound] of the state it is applied to. *)
Fixpoint cycle_fits (ops : list Op) (t : Timer) : Prop :=
  match ops with
  | [] => True
  | o :: r =>
      match o with
      | OpSetSettings next _ _ => cycleInRound t <= cyclesPerRound next
      | _ => True
      end /\ cycle_fits r (fst (step o t))
  end.

End App.

(** ** [src/unnamed/part_000]: the earlier copy of the engine

    It has no [endAt] field and no auto-start: the remaining time is counted
    down from [_lastTick]. *)
Module Legacy.

Record Timer : Type := mkTimer {
  settings : Settings;
  mode : Mode;
  cycleInRound : Z;
  round : Z;
  isRunning : bool;
  startedAt : option Z;
  remainingMs : Z;
  _intervalId : bool;
  _lastTick : option Z;
  _listener : bool
}.

Definition set_settings (v : Settings) (t : Timer) : Timer :=
  mkTimer v (mode t) (cycleInRound t) (round t) (isRunning t) (startedAt t)
    (remainingMs t) (_intervalId t) (_lastTick t) (_listener t).
Definition set_mode (v : Mode) (t : Timer) : Timer :=
  mkTimer (settings t) v (cycleInRound t) (round t) (isRunning t) (startedAt t)
    (remainingMs t) (_intervalId t) (_lastTick t) (_listener t).
Definition set_cycleInRound (v : Z) (t : Timer) : Timer :=
  mkTimer (settings t) (mode t) v (round t) (isRunning t) (startedAt t)
    (remainingMs t) (_intervalId t) (_lastTick t) (_listener t).
Definition set_round (v : Z) (t : Timer) : Timer :=
  mkTimer (settings t) (mode t) (cycleInRound t) v (isRunning t) (startedAt t)
    (remainingMs t) (_intervalId t) (_lastTick t) (_listener t).
Definition set_isRunning (v : bool) (t : Timer) : Timer :=
  mkTimer (settings t) (mode t) (cycleInRound t) (round t) v (startedAt t)
    (remainingMs t) (_intervalId t) (_lastTick t) (_listener t).
Definition set_startedAt (v : option Z) (t : Timer) : Timer :=
  mkTimer (settings t) (mode t) (cycleInRound t) (round t) (isRunning t) v
    (remainingMs t) (_intervalId t) (_lastTick t) (_listener t).
Definition set_remainingMs (v : Z) (t : Timer) : Timer :=
  mkTimer (settings t) (mode t) (cycleInRound t) (round t) (isRunning t)
    (startedAt t) v (_intervalId t) (_lastTick t) (_listener t).
Definition set_intervalId (v : bool) (t : Timer) : Timer :=
  mkTimer (settings t) (mode t) (cycleInRound t) (round t) (isRunning t)
    (startedAt t) (remainingMs t) v (_lastTick t) (_listener t).
Definition set_lastTick (v : option Z) (t : Timer) : Timer :=
  mkTimer (settings t) (mode t) (cycleInRound t) (round t) (isRunning t)
    (startedAt t) (remainingMs t) (_intervalId t) v (_listener t).
Definition set_listener (v : bool) (t : Timer) : Timer :=
  mkTimer (settings t) (mode t) (cycleInRound t) (round t) (isRunning t)
    (startedAt t) (remainingMs t) (_intervalId t) (_lastTick t) v.

Definition Cmd : Type := Timer -> Timer * list Event.

Definition _modeToMs (t : Timer) (m : Mode) : Z :=
  let mins :=
    match m with
    | Work => workMinutes (settings t)
    | Short => shortMinutes (settings t)
    | Long => longMinutes (settings t)
    end in
  mins * 60 * 1000.

Definition new (s : Settings) : Timer :=
  let t := mkTimer s Work 1 1 false None 0 false None false in
  set_remainingMs (_modeToMs t (mode t)) t.

Definition onChange : Cmd := modify (set_listener true).

Definition _emit (modeChanged : bool) : Cmd := fun t =>
  if _listener t then
    (t, [Emit {| snap_mode := mode t;
                 snap_remainingMs := remainingMs t;
                 snap_cycleInRound := cycleInRound t;
                 snap_round := round t;
                 snap_totalMs := _modeToMs t (mode t);
                 snap_isRunning := isRunning t;
                 snap_modeChanged := modeChanged |}])
  else (t, []).

Definition _ensureTicker : Cmd := fun t =>
  if _intervalId t then (t, [])
  else (set_intervalId true t, [SetInterval]).

(** [start()]: only [_lastTick] anchors the countdown. *)
Definition start (now : Z) : Cmd := fun t =>
  if isRunning t then (t, [])
  else
    let t := set_isRunning true t in
    let t := set_startedAt (Some now) t in
    let t := set_lastTick (Some now) t in
    _ensureTicker t.

(** [pause()]: reads no clock and leaves [remainingMs] as the last tick
    left it. *)
Definition pause : Cmd := fun t =>
  if negb (isRunning t) then (t, [])
  else
    let t := set_isRunning false t in
    if _intervalId t then (set_intervalId false t, [ClearInterval])
    else (t, []).

Definition reset : Cmd := fun t =>
  pause t >> modify (fun t => set_remainingMs (_modeToMs t (mode t)) t).

Definition _advanceMode : Cmd := fun t =>
  let t :=
    match mode t with
    | Work =>
        let isEndOfRound := cyclesPerRound (settings t) <=? cycleInRound t in
        let t := set_mode (if isEndOfRound then Long else Short) t in
        if isEndOfRound then
          let t := set_cycleInRound 1 t in
          set_round (round t + 1) t
        else set_cycleInRound (cycleInRound t + 1) t
    | _ => set_mode Work t
    end in
  let t := set_remainingMs (_modeToMs t (mode t)) t in
  _emit true t.

Definition skip : Cmd := _advanceMode.

Definition _onComplete : Cmd := fun t =>
  pause t
  >> call Beep
  >> (fun t => (t, [Notify (mode_name (mode t) ++ " completed") "Time to switch!"]))
  >> _advanceMode.

(** The interval callback: [delta = max(0, now - _lastTick)] is taken off
    the previous [remainingMs].  A [null] [_lastTick] counts as 0 in the
    subtraction. *)
Definition tick (now : Z) : Cmd := fun t =>
  if negb (isRunning t) then (t, [])
  else
    let last := match _lastTick t with Some l => l | None => 0 end in
    let delta := Z.max 0 (now - last) in
    let t := set_lastTick (Some now) t in
    let t := set_remainingMs (Z.max 0 (remainingMs t - delta)) t in
    if remainingMs t =? 0 then _onComplete t
    else _emit false t.

Definition interval_fire (now : Z) : Cmd := fun t =>
  if _intervalId t then tick now t else (t, []).

(** [setSettings(nextSettings)]: ends without a call of [_emit]. *)
Definition setSettings (next : Settings) (nowS : Z) : Cmd := fun t =>
  let preservedRunning := isRunning t in
  pause t
  >> modify (set_settings next)
  >> modify (fun t => set_remainingMs (_modeToMs t (mode t)) t)
  >> (if preservedRunning then start nowS else nop).

End Legacy.

(** ** The language's string and number helpers used by the page

    Strings are sequences of code units below 256.  Numbers are integers,
    exact below 2^53 in the source. *)
Module JS.

Definition code (c : ascii) : Z := Z.of_N (N_of_ascii c).

(** The white space and line terminators that [parseInt] skips: TAB, LF,
    VT, FF, CR, SP and NBSP. *)
Definition isWhiteSpace (c : ascii) : bool :=
  let n := code c in
  ((9 <=? n) && (n <=? 13)) || (n =? 32) || (n =? 160).

Definition digitValue (c : ascii) : option Z :=
  let n := code c in
  if (48 <=? n) && (n <=? 57) then Some (n - 48) else None.

Fixpoint trimStart (s : string) : string :=
  match s with
  | String c r => if isWhiteSpace c then trimStart r else s
  | EmptyString => s
  end.

(** The value of the longest prefix of decimal digits, continuing [acc]. *)
Fixpoint parseDigits (s : string) (acc : Z) : Z :=
  match s with
  | String c r =>
      match digitValue c with
      | Some d => parseDigits r (acc * 10 + d)
      | None => acc
      end
  | EmptyString => acc
  end.

Definition startsWithDigit (s : string) : bool :=
  match s with
  | String c _ => match digitValue c with Some _ => true | None => false end
  | EmptyString => false
  end.

(** [Number.parseInt(s, 10)]; [None] is [NaN]. *)
Definition parseInt (s : string) : option Z :=
  let s := trimStart s in
  let sign := match s with
              | String "-"%char _ => -1
              | _ => 1
              end in
  let s := match s with
           | String "-"%char r | String "+"%char r => r
           | _ => s
           end in
  if startsWithDigit s then Some (sign * parseDigits s 0) else None.

Definition digitChar (d : Z) : ascii := ascii_of_N (Z.to_N (48 + d)).

(** The decimal digits of [n >= 0], most significant first; [fuel] bounds
    their number. *)
Fixpoint digits (fuel : nat) (n : Z) : string :=
  match fuel with
  | O => EmptyString
  | S f =>
      if n <? 10 then String (digitChar n) EmptyString
      else (digits f (n / 10) ++ String (digitChar (n mod 10)) EmptyString)%string
  end.

(** [String(n)] for an integer [n]. *)
Definition String_ (n : Z) : string :=
  let m := Z.abs n in
  let ds := digits (S (Z.to_nat (Z.log2 m))) m in
  if n <? 0 then String "-"%char ds else ds.

(** [s.padStart(2, "0")]. *)
Definition padStart2 (s : string) : string :=
  match String.length s with
  | O => "00"%string
  | S O => String "0"%char s
  | _ => s
  end.

(** [Math.ceil(a / b)] for [b > 0]. *)
Definition ceilDiv (a b : Z) : Z := - ((- a) / b).

End JS.

(** ** The page around the engine ([src/app.js], from "DOM wiring" on) *)
Module Page.

Import App.
(** [clampInt(value, min, max, fallback)]. *)
Definition clampInt (value : string) (min max fallback : Z) : Z :=
  match JS.parseInt value with
  | None => fallback
  | Some n => Z.min max (Z.max min n)
  end.

(** [formatMs(ms)]: [%] is the remainder that takes the sign of the
    dividend. *)
Definition formatMs (ms : Z) : string :=
  let totalSeconds := JS.ceilDiv ms 1000 in
  let minutes := totalSeconds / 60 in
  let seconds := Z.rem totalSeconds 60 in
  (JS.padStart2 (JS.String_ minutes) ++ ":" ++
   JS.padStart2 (JS.String_ seconds))%string.

(** The fields of the settings dialog that reach the engine. *)
Record Form : Type := mkForm {
  settingWork : string;
  settingShort : string;
  settingLong : string;
  settingCycles : string;
  settingAutoStart : bool
}.

(** The dialog's fields as the page initialises them from a
    configuration. *)
Definition formOf (c : Settings) : Form :=
  {| settingWork := JS.String_ (workMinutes c);
     settingShort := JS.String_ (shortMinutes c);
     settingLong := JS.String_ (longMinutes c);
     settingCycles := JS.String_ (cyclesPerRound c);
     settingAutoStart := autoStart c |}.

(** The object [next] that [saveSettingsChanges] builds. *)
Definition nextSettings (f : Form) : Settings :=
  {| workMinutes := clampInt (settingWork f) 1 180 (workMinutes defaultSettings);
     shortMinutes := clampInt (settingShort f) 1 60 (shortMinutes defaultSettings);
     longMinutes := clampInt (settingLong f) 1 60 (longMinutes defaultSettings);
     cyclesPerRound :=
       clampInt (settingCycles f) 1 12 (cyclesPerRound defaultSettings);
     autoStart := settingAutoStart f |}.

(** What [saveSettingsChanges] does to the timer: [timer.setSettings(next)]
    and then [timer._emit(true)].  Its calls that store the settings, apply
    the theme and close the dialog do not touch the timer. *)
Definition saveSettingsChanges (f : Form) (nowP nowS : Z) : Cmd := fun t =>
  setSettings (nextSettings f) nowP nowS t >> _emit true.

(** The click handler of the start/pause button. *)
Definition startPauseClick (now : Z) : Cmd := fun t =>
  (if isRunning t then pause now t else start now t) >> _emit false.

(** The click handler of the reset button. *)
Definition resetClick (now : Z) : Cmd := fun t =>
  reset now t >> _emit false.

(** A start click at [fst x] followed by a pause click at [snd x], for each
    [x] in turn. *)
Fixpoint sessions (l : list (Z * Z)) (t : Timer) : Timer * list Event :=
  match l with
  | [] => (t, [])
  | (s, p) :: r => startPauseClick s t >> startPauseClick p >> sessions r
  end.

(** The time the engine has run over the sessions. *)
Fixpoint runningTime (l : list (Z * Z)) : Z :=
  match l with
  | [] => 0
  | (s, p) :: r => (p - s) + runningTime r
  end.

(** Skips at the given clock readings. *)
Fixpoint skips (ts : list Z) : list Op :=
  match ts with
  | [] => []
  | now :: r => OpSkip now :: skips r
  end.

(** The modes a round still runs through when [k] work sessions follow the
    current one: a short break and a work session [k] times, then the long
    break and the first work session of the next round. *)
Fixpoint roundPattern (k : nat) : list Mode :=
  match k with
  | O => [Long; Work]
  | S k' => Short :: Work :: roundPattern k'
  end.

(** Reads a trace of [setInterval] / [clearInterval] calls: [Some live'] when
    no interval is installed while one is live and none is cleared while
    none is live. *)
Fixpoint intervalTrace (live : bool) (l : list Event) : option bool :=
  match l with
  | [] => Some live
  | SetInterval :: r => if live then None else intervalTrace true r
  | ClearInterval :: r => if live then intervalTrace false r else None
  | _ :: r => intervalTrace live r
  end.

(** What [render] needs of a snapshot: a positive total and a remaining time
    within it. *)
Definition snapshot_ok (s : Snapshot) : Prop :=
  0 < snap_totalMs s /\ 0 <= snap_remainingMs s <= snap_totalMs s.

End Page.

(** ** Runs of the earlier copy ([src/unnamed/part_000]) *)
Module LegacyRun.

Import Legacy.

Inductive Op : Type :=
| LOnChange
| LStart (now : Z)
| LPause
| LReset
| LSkip
| LTick (now : Z)
| LSetSettings (next : Settings) (nowS : Z)
| LEmitNow (modeChanged : bool).

Definition step (o : Op) : Cmd :=
  match o with
  | LOnChange => onChange
  | LStart now => start now
  | LPause => pause
  | LReset => reset
  | LSkip => skip
  | LTick now => interval_fire now
  | LSetSettings next nowS => setSettings next nowS
  | LEmitNow b => _emit b
  end.

Fixpoint run (ops : list Op) (t : Timer) : Timer * list Event :=
  match ops with
  | [] => (t, [])
  | o :: r => step o t >> run r
  end.

Definition valid_op (o : Op) : Prop :=
  match o with
  | LSetSettings next _ => valid_settings next
  | _ => True
  end.

(** Callback runs at the given clock readings. *)
Fixpoint ticks (ts : list Z) (t : Timer) : Timer * list Event :=
  match ts with
  | [] => (t, [])
  | now :: r => tick now t >> ticks r
  end.

(** The earlier copy's view of a timer of [src/app.js]: the same fields
    without [endAt]. *)
Definition ofApp (t : App.Timer) : Timer :=
  mkTimer (App.settings t) (App.mode t) (App.cycleInRound t) (App.round t)
    (App.isRunning t) (App.startedAt t) (App.remainingMs t)
    (App._intervalId t) (App._lastTick t) (App._listener t).

End LegacyRun.

(** * Properties *)

Import App.

(** Evaluates the methods on a timer given by its fields. *)
Ltac unfold_engine :=
  cbv [setMode setSettings interval_fire tick _onComplete skip
       _advanceMode reset pause start _ensureTicker _emit onChange
       andThen modify call nop _modeToMs new
       set_settings set_mode set_cycleInRound set_round set_isRunning
       set_startedAt set_endAt set_remainingMs set_intervalId set_lastTick
       set_listener
       settings mode cycleInRound round isRunning startedAt endAt
       remainingMs _intervalId _lastTick _listener
       fst snd app negb] in *.

Ltac arith_facts :=
  repeat match goal with
  | H : (_ <=? _) = true |- _ => apply Z.leb_le in H
  | H : (_ <=? _) = false |- _ => apply Z.leb_gt in H
  | H : (_ =? _) = true |- _ => apply Z.eqb_eq in H
  | H : (_ =? _) = false |- _ => apply Z.eqb_neq in H
  | H : Some _ = Some _ |- _ => inversion H; clear H; subst
  | H : Some _ = None |- _ => discriminate H
  | H : None = Some _ |- _ => discriminate H
  end.

Ltac inv_finish :=
  repeat split; intros; arith_facts;
  try discriminate; try congruence; try lia.

Ltac split_matches :=
  repeat match goal with
  | |- context [match ?x with _ => _ end] => is_var x; destruct x
  | |- context [if ?b then _ else _] => destruct b eqn:?
  end.

(** ** Sequencing *)

Lemma andThen_fst {T : Type} (r : T * list Event) (c : T -> T * list Event) :
  fst (r >> c) = fst (c (fst r)).
Proof. destruct r as [t l]; simpl. destruct (c t); reflexivity. Qed.

Lemma andThen_snd {T : Type} (r : T * list Event) (c : T -> T * list Event) :
  snd (r >> c) = snd r ++ snd (c (fst r)).
Proof. destruct r as [t l]; simpl. destruct (c t); reflexivity. Qed.

Lemma alarms_app (l1 l2 : list Event) :
  alarms (l1 ++ l2) = alarms l1 ++ alarms l2.
Proof. apply filter_app. Qed.

(** ** Mode advance *)

(** C1. [_advanceMode] from Work at the end of a round enters Long Break,
    resets [cycleInRound] to 1 and adds 1 to [round]; from Work before the end
    of the round it enters Short Break and adds 1 to [cycleInRound]; from a
    break it enters Work and leaves both counters alone.  Afterwards
    [remainingMs] is the full duration of the new mode; with auto-start the
    engine is running and [endAt] is [now + remainingMs], without it the
    engine is paused with [endAt] cleared. *)
Theorem advanceMode_spec (now : Z) (t : Timer) :
  let t' := fst (_advanceMode now t) in
  (mode t = Work -> cyclesPerRound (settings t) <= cycleInRound t ->
     mode t' = Long /\ cycleInRound t' = 1 /\ round t' = round t + 1) /\
  (mode t = Work -> cycleInRound t < cyclesPerRound (settings t) ->
     mode t' = Short /\ cycleInRound t' = cycleInRound t + 1 /\
     round t' = round t) /\
  (mode t <> Work ->
     mode t' = Work /\ cycleInRound t' = cycleInRound t /\
     round t' = round t) /\
  settings t' = settings t /\
  remainingMs t' = _modeToMs t' (mode t') /\
  (autoStart (settings t) = true ->
     isRunning t' = true /\ endAt t' = Some (now + remainingMs t')) /\
  (autoStart (settings t) = false ->
     isRunning t' = false /\ endAt t' = None /\
     remainingMs t' = _modeToMs t' (mode t')).
Proof.
  destruct t as [cfg m c r run sa ea rem iv lt ls]; unfold_engine.
  destruct m, (cyclesPerRound cfg <=? c) eqn:E, (autoStart cfg), iv, ls;
    inv_finish.
Qed.

Lemma advanceMode_spec_witness :
  let t' := fst (_advanceMode 1000 (new defaultSettings)) in
  mode t' = Short /\ cycleInRound t' = 2 /\ round t' = 1.
Proof.
  apply (proj1 (proj2 (advanceMode_spec 1000 (new defaultSettings))));
    [reflexivity | vm_compute; reflexivity].
Defined.

(** ** Start and pause *)

(** C3. [start] does nothing at all on a running engine, so a second [start]
    in a row changes nothing and makes no call.  On a paused engine it sets
    [isRunning] and [endAt = now + remainingMs], leaving [remainingMs], the
    mode and the counters alone; hence start at [now], pause at [t1], start
    at [t2] resumes from what was left at [t1], not from the full
    duration. *)
Theorem start_spec (now : Z) (t : Timer) :
  (isRunning t = true -> start now t = (t, [])) /\
  (isRunning t = false ->
     let t' := fst (start now t) in
     isRunning t' = true /\ endAt t' = Some (now + remainingMs t) /\
     remainingMs t' = remainingMs t /\ mode t' = mode t /\
     cycleInRound t' = cycleInRound t /\ round t' = round t /\
     _intervalId t' = true) /\
  (forall now2, start now2 (fst (start now t)) = (fst (start now t), [])) /\
  (isRunning t = false -> forall t1 t2,
     let left := Z.max 0 (remainingMs t - (t1 - now)) in
     let t' := fst (start t2 (fst (pause t1 (fst (start now t))))) in
     remainingMs t' = left /\ endAt t' = Some (t2 + left) /\
     isRunning t' = true).
Proof.
  destruct t as [cfg m c r run sa ea rem iv lt ls]; unfold_engine.
  destruct run, iv; repeat split; intros; try discriminate; try reflexivity;
    try (f_equal; lia).
Qed.

Lemma start_spec_witness :
  let t' := fst (start 5000 (new defaultSettings)) in
  isRunning t' = true /\ endAt t' = Some (5000 + 1500000) /\
  remainingMs t' = 1500000 /\ mode t' = Work /\
  cycleInRound t' = 1 /\ round t' = 1 /\ _intervalId t' = true.
Proof.
  apply (proj1 (proj2 (start_spec 5000 (new defaultSettings)))); reflexivity.
Defined.

(** C4. [pause] does nothing at all on an engine that is not running, so a
    second [pause] in a row changes nothing.  On a running engine whose end
    time is [e] it sets [remainingMs = max(0, e - now)], a function of the
    absolute end time and the clock only, clears [endAt], clears [isRunning]
    and cancels the interval. *)
Theorem pause_spec (now : Z) (t : Timer) :
  (isRunning t = false -> pause now t = (t, [])) /\
  (forall e, isRunning t = true -> endAt t = Some e ->
     let t' := fst (pause now t) in
     remainingMs t' = Z.max 0 (e - now) /\ endAt t' = None /\
     isRunning t' = false /\ _intervalId t' = false /\
     snd (pause now t) = (if _intervalId t then [ClearInterval] else [])) /\
  (forall now2, pause now2 (fst (pause now t)) = (fst (pause now t), [])).
Proof.
  destruct t as [cfg m c r run sa ea rem iv lt ls]; unfold_engine.
  destruct run, ea, iv; repeat split; intros; arith_facts;
    try discriminate; reflexivity.
Qed.

Lemma pause_spec_witness :
  let t := fst (start 5000 (new defaultSettings)) in
  let t' := fst (pause 6000 t) in
  remainingMs t' = Z.max 0 (1505000 - 6000) /\ endAt t' = None /\
  isRunning t' = false /\ _intervalId t' = false /\
  snd (pause 6000 t) = (if _intervalId t then [ClearInterval] else []).
Proof.
  apply (proj1 (proj2 (pause_spec 6000 (fst (start 5000 (new defaultSettings)))))
           1505000); reflexivity.
Defined.

(** ** The periodic recompute *)

(** While the end time [e] is still ahead, the callback of [src/app.js] stores
    [e - now], whatever [remainingMs] and [_lastTick] held before, and
    reports it with [modeChanged = false]. *)
Lemma tick_recomputes_from_endAt (now nowP nowA e : Z) (t : Timer) :
  isRunning t = true -> endAt t = Some e -> now < e ->
  tick now nowP nowA t =
    _emit false (set_remainingMs (Z.max 0 (e - now))
                   (set_lastTick (Some now) t)) /\
  remainingMs (fst (tick now nowP nowA t)) = e - now /\
  endAt (fst (tick now nowP nowA t)) = Some e /\
  isRunning (fst (tick now nowP nowA t)) = true.
Proof.
  intros Hr He Hlt.
  destruct t as [cfg m c r run sa ea rem iv lt ls].
  cbv [isRunning endAt] in Hr, He. subst run ea.
  unfold_engine.
  replace (Z.max 0 (e - now)) with (e - now) by lia.
  destruct (e - now =? 0) eqn:E; [apply Z.eqb_eq in E; lia|].
  destruct ls; repeat split; reflexivity.
Qed.

(** A stall of [S] between two recomputes of [src/app.js]: the second reports
    the first value less [S], cut off at 0; it is never negative and, for
    [S > 0], never the value reported before. *)
Lemma tick_after_stall (now nowP nowA S e : Z) (t : Timer) :
  isRunning t = true -> endAt t = Some e -> now < e -> 0 < S ->
  let t1 := fst (tick now nowP nowA t) in
  let recomputed := Z.max 0 (e - (now + S)) in
  recomputed = Z.max 0 (remainingMs t1 - S) /\
  0 <= recomputed < remainingMs t1 /\
  (S < remainingMs t1 ->
     remainingMs (fst (tick (now + S) nowP nowA t1)) = remainingMs t1 - S).
Proof.
  intros Hr He Hlt HS.
  destruct (tick_recomputes_from_endAt now nowP nowA e t Hr He Hlt)
    as (_ & Hrem & Hend & Hrun).
  cbv zeta. rewrite Hrem. repeat split; try lia.
  intros HS'.
  destruct (tick_recomputes_from_endAt (now + S) nowP nowA e _ Hrun Hend)
    as (_ & Hrem' & _); lia.
Qed.

(** The callback of the earlier copy takes [max(0, now - _lastTick)] off the
    previous [remainingMs]. *)
Lemma legacy_tick_subtracts_delta (now l : Z) (t : Legacy.Timer) :
  Legacy.isRunning t = true -> Legacy._lastTick t = Some l ->
  Z.max 0 (now - l) < Legacy.remainingMs t ->
  Legacy.remainingMs (fst (Legacy.tick now t)) =
    Legacy.remainingMs t - Z.max 0 (now - l).
Proof.
  intros Hr Hl Hlt.
  destruct t as [cfg m c r run sa rem iv lt ls].
  cbv [Legacy.isRunning Legacy._lastTick Legacy.remainingMs] in Hr, Hl, Hlt.
  subst run lt.
  cbv [Legacy.tick Legacy.isRunning Legacy._lastTick Legacy.remainingMs
       Legacy.set_lastTick Legacy.set_remainingMs Legacy.settings Legacy.mode
       Legacy.cycleInRound Legacy.round Legacy.startedAt Legacy._intervalId
       Legacy._listener negb].
  replace (Z.max 0 (rem - Z.max 0 (now - l))) with (rem - Z.max 0 (now - l))
    by lia.
  destruct (rem - Z.max 0 (now - l) =? 0) eqn:E; [apply Z.eqb_eq in E; lia|].
  cbv [Legacy._emit Legacy._listener]. destruct ls; reflexivity.
Qed.

(** C2. In the earlier copy the recompute subtracts a per-tick delta and
    [pause] drops the time since the last tick: start at 0, pause and start
    again at 200, recompute at 250.  The engine has run for 250 ms; the
    earlier copy reports 50 ms consumed, [src/app.js] reports 250 ms. *)
Theorem legacy_tick_drifts :
  let l1 := fst (Legacy.start 0 (Legacy.new defaultSettings)) in
  let l2 := fst (Legacy.pause l1) in
  let l3 := fst (Legacy.start 200 l2) in
  let l4 := fst (Legacy.tick 250 l3) in
  let a1 := fst (start 0 (new defaultSettings)) in
  let a2 := fst (pause 200 a1) in
  let a3 := fst (start 200 a2) in
  let a4 := fst (tick 250 250 250 a3) in
  Legacy.isRunning l4 = true /\
  Legacy.remainingMs l4 = 1500000 - 50 /\
  isRunning a4 = true /\
  remainingMs a4 = 1500000 - 250.
Proof. vm_compute. repeat split; reflexivity. Qed.

(** ** Configuration change *)

(** [setSettings] of [src/app.js]: the new configuration is active,
    [remainingMs] is the full duration of the unchanged mode under it, the
    engine runs afterwards exactly if it ran before, and a registered
    listener receives one snapshot, flagged [modeChanged]. *)
Lemma setSettings_spec (next : Settings) (nowP nowS : Z) (t : Timer) :
  let r := setSettings next nowP nowS t in
  let t' := fst r in
  settings t' = next /\ mode t' = mode t /\
  remainingMs t' = _modeToMs t' (mode t') /\
  isRunning t' = isRunning t /\
  cycleInRound t' = cycleInRound t /\ round t' = round t /\
  (_listener t = true ->
     snapshots (snd r) =
       [mkSnapshot (mode t) (_modeToMs t' (mode t)) (cycleInRound t) (round t)
          (_modeToMs t' (mode t)) (isRunning t) true]).
Proof.
  destruct t as [cfg m c r run sa ea rem iv lt ls]; unfold_engine.
  destruct run, ea, iv, ls; repeat split; intros; congruence.
Qed.

(** C6. [setSettings] of the earlier copy hands the listener nothing, in any
    state and for any configuration, although it does reset [remainingMs]
    and keeps the engine running or paused as it was. *)
Theorem legacy_setSettings_silent (next : Settings) (nowS : Z)
    (t : Legacy.Timer) :
  let r := Legacy.setSettings next nowS t in
  snapshots (snd r) = [] /\
  Legacy.remainingMs (fst r) = Legacy._modeToMs (fst r) (Legacy.mode (fst r)) /\
  Legacy.isRunning (fst r) = Legacy.isRunning t.
Proof.
  destruct t as [cfg m c r run sa rem iv lt ls].
  cbv [Legacy.setSettings Legacy.pause Legacy.start Legacy._ensureTicker
       andThen modify nop Legacy._modeToMs
       Legacy.set_settings Legacy.set_isRunning Legacy.set_startedAt
       Legacy.set_remainingMs Legacy.set_intervalId Legacy.set_lastTick
       Legacy.settings Legacy.mode Legacy.cycleInRound Legacy.round
       Legacy.isRunning Legacy.startedAt Legacy.remainingMs
       Legacy._intervalId Legacy._lastTick Legacy._listener
       fst snd app negb].
  destruct run, iv; repeat split; reflexivity.
Qed.

(** ** Completion and skip *)

(** What [pause] leaves of a running engine. *)
Lemma pause_running (now : Z) (t : Timer) :
  isRunning t = true ->
  isRunning (fst (pause now t)) = false /\
  endAt (fst (pause now t)) = None /\
  _intervalId (fst (pause now t)) = false /\
  mode (fst (pause now t)) = mode t /\
  settings (fst (pause now t)) = settings t /\
  alarms (snd (pause now t)) = [].
Proof.
  destruct t as [cfg m c r run sa ea rem iv lt ls]; unfold_engine.
  intros ->. destruct ea, iv; repeat split; reflexivity.
Qed.

(** [_advanceMode] rings no alarm. *)
Lemma advanceMode_alarms (now : Z) (t : Timer) :
  alarms (snd (_advanceMode now t)) = [].
Proof.
  destruct t as [cfg m c r run sa ea rem iv lt ls]; unfold_engine.
  destruct m, (cyclesPerRound cfg <=? c), (autoStart cfg), iv, ls;
    reflexivity.
Qed.

(** Whether the engine runs after [_advanceMode] is decided by auto-start. *)
Lemma advanceMode_running (now : Z) (t : Timer) :
  let t' := fst (_advanceMode now t) in
  (autoStart (settings t) = true ->
     isRunning t' = true /\
     endAt t' = Some (now + _modeToMs t' (mode t'))) /\
  (autoStart (settings t) = false -> isRunning t' = false).
Proof.
  destruct t as [cfg m c r run sa ea rem iv lt ls]; unfold_engine.
  destruct m, (cyclesPerRound cfg <=? c), (autoStart cfg), iv, ls;
    repeat split; intros; try discriminate; reflexivity.
Qed.

(** Firings on an engine that is not running change nothing and call
    nothing. *)
Lemma firings_when_paused (later : list (Z * Z * Z)) (t : Timer) :
  isRunning t = false -> run (firings later) t = (t, []).
Proof.
  intros Hr. induction later as [|[[n p] a] later IH]; simpl; [reflexivity|].
  unfold interval_fire, tick. rewrite Hr. simpl.
  destruct (_intervalId t); simpl; rewrite IH; reflexivity.
Qed.

(** Firings that all come before the end time ring no alarm. *)
Lemma firings_before_end (later : list (Z * Z * Z)) :
  forall (t : Timer) (e : Z),
    isRunning t = true -> endAt t = Some e ->
    Forall (fun x => fst (fst x) < e) later ->
    alarms (snd (run (firings later) t)) = [].
Proof.
  induction later as [|[[n p] a] later IH]; intros t e Hr He Hall;
    simpl; [reflexivity|].
  inversion Hall as [|x l Hn Hrest]; subst; simpl in Hn.
  rewrite andThen_snd, alarms_app.
  unfold interval_fire. destruct (_intervalId t).
  - destruct (tick_recomputes_from_endAt n p a e t Hr He Hn)
      as (Heq & _ & He' & Hr').
    rewrite (IH _ e Hr' He' Hrest), app_nil_r.
    rewrite Heq. unfold _emit. destruct (_listener _); reflexivity.
  - simpl. apply (IH t e Hr He Hrest).
Qed.

(** C5. [skip] calls neither [beep] nor [notify].  A firing of the interval
    that finds the end time reached pauses the engine (cancelling the
    interval), then calls [beep], then [notify] with the mode that has just
    ended, then advances the mode: one [beep] and one [notify].  After it,
    without auto-start, further firings do nothing at all; with auto-start,
    firings before the end time of the session just started ring no
    alarm. *)
Theorem completion_alarm_spec :
  (forall now t, alarms (snd (skip now t)) = []) /\
  (forall now nowP nowA e t,
     isRunning t = true -> endAt t = Some e -> e <= now ->
     let t0 := set_remainingMs 0 (set_lastTick (Some now) t) in
     let p := pause nowP t0 in
     let ring := [Beep; Notify (mode_name (mode t) ++ " completed")
                          "Time to switch!"] in
     let done := tick now nowP nowA t in
     done = (fst (_advanceMode nowA (fst p)),
             snd p ++ ring ++ snd (_advanceMode nowA (fst p))) /\
     isRunning (fst p) = false /\ _intervalId (fst p) = false /\
     alarms (snd p) = [] /\
     alarms (snd done) = ring /\
     forall later,
       (autoStart (settings t) = false ->
          run (firings later) (fst done) = (fst done, [])) /\
       (autoStart (settings t) = true ->
          Forall (fun x => fst (fst x) <
                           nowA + _modeToMs (fst done) (mode (fst done)))
                 later ->
          alarms (snd (run (firings later) (fst done))) = [])).
Proof.
  split; [exact advanceMode_alarms|].
  intros now nowP nowA e t Hr He Hle. cbv zeta.
  set (t0 := set_remainingMs 0 (set_lastTick (Some now) t)).
  assert (Hr0 : isRunning t0 = true) by exact Hr.
  destruct (pause_running nowP t0 Hr0)
    as (Hp1 & Hp2 & Hp3 & Hmode & Hset & Hp4).
  assert (Htick : tick now nowP nowA t = _onComplete nowP nowA t0).
  { unfold tick. rewrite Hr. cbv [negb].
    change (endAt (set_lastTick (Some now) t)) with (endAt t). rewrite He.
    replace (Z.max 0 (e - now)) with 0 by lia. reflexivity. }
  assert (Hdone : tick now nowP nowA t =
            (fst (_advanceMode nowA (fst (pause nowP t0))),
             snd (pause nowP t0) ++
             [Beep; Notify (mode_name (mode t) ++ " completed")
                      "Time to switch!"] ++
             snd (_advanceMode nowA (fst (pause nowP t0))))).
  { rewrite Htick. unfold _onComplete.
    change (mode t) with (mode t0). rewrite <- Hmode.
    destruct (pause nowP t0) as [tp lp]. cbv [andThen call fst snd].
    destruct (_advanceMode nowA tp) as [ta la].
    rewrite <- !app_assoc. reflexivity. }
  change (settings t0) with (settings t) in Hset.
  destruct (advanceMode_running nowA (fst (pause nowP t0))) as [Hon Hoff].
  rewrite Hset in Hon, Hoff.
  assert (Hfst : fst (tick now nowP nowA t) =
                 fst (_advanceMode nowA (fst (pause nowP t0))))
    by (rewrite Hdone; reflexivity).
  assert (Hsnd : snd (tick now nowP nowA t) =
                 snd (pause nowP t0) ++
                 [Beep; Notify (mode_name (mode t) ++ " completed")
                          "Time to switch!"] ++
                 snd (_advanceMode nowA (fst (pause nowP t0))))
    by (rewrite Hdone; reflexivity).
  split; [exact Hdone|].
  split; [exact Hp1|]. split; [exact Hp3|]. split; [exact Hp4|].
  split.
  - rewrite Hsnd, !alarms_app, Hp4, advanceMode_alarms. reflexivity.
  - intros later. rewrite Hfst. split.
    + intros Hauto. apply firings_when_paused. apply Hoff; assumption.
    + intros Hauto Hall. destruct (Hon Hauto) as [Hrun Hend].
      apply (firings_before_end later _ _ Hrun Hend). exact Hall.
Qed.

Lemma completion_alarm_spec_witness :
  let t := fst (start 0 (new defaultSettings)) in
  alarms (snd (tick 1500000 1500000 1500000 t)) =
    [Beep; Notify "Work completed" "Time to switch!"].
Proof.
  cbv zeta.
  refine (proj1 (proj2 (proj2 (proj2 (proj2
            (proj2 completion_alarm_spec 1500000 1500000 1500000 1500000
               (fst (start 0 (new defaultSettings))) _ _ _))))));
    [reflexivity | reflexivity | lia].
Defined.

(** ** The state invariant *)

Lemma last_cons (l : list Z) : forall a d, last (a :: l) d = last l a.
Proof.
  induction l as [|b l IH]; intros a d; [reflexivity|].
  change (last (a :: b :: l) d) with (last (b :: l) d).
  rewrite (IH b d), (IH b a). reflexivity.
Qed.

Lemma chronological_app (l1 l2 : list Z) : forall clk,
  chronological clk (l1 ++ l2) <->
  chronological clk l1 /\ chronological (last l1 clk) l2.
Proof.
  induction l1 as [|a l1 IH]; intros clk.
  - simpl. tauto.
  - rewrite last_cons. simpl. rewrite IH. tauto.
Qed.


(** [endAt] is set exactly while the engine runs: this part of the invariant
    needs no assumption on the configurations or on the clock. *)
Lemma step_running_iff_endAt (o : Op) (t : Timer) :
  (isRunning t = true <-> endAt t <> None) ->
  (isRunning (fst (step o t)) = true <-> endAt (fst (step o t)) <> None).
Proof.
  destruct t as [cfg m c r run sa ea rem iv lt ls].
  cbv [isRunning endAt]. intros [H1 H2].
  assert (Hshape : (run = true /\ exists e, ea = Some e) \/
                   (run = false /\ ea = None)).
  { destruct run, ea as [e|].
    - left. split; [reflexivity | exists e; reflexivity].
    - exfalso. apply H1; reflexivity.
    - assert (false = true) by (apply H2; discriminate). discriminate.
    - right. split; reflexivity. }
  clear H1 H2.
  destruct Hshape as [(-> & e & ->) | (-> & ->)];
    destruct o; cbv [step]; unfold_engine; split_matches; unfold_engine;
    split; intros; try discriminate; try congruence.
Qed.

Lemma running_iff_endAt (cfg : Settings) (ops : list Op) :
  let t := fst (run ops (new cfg)) in
  isRunning t = true <-> endAt t <> None.
Proof.
  cbv zeta.
  assert (Hgen : forall ops t,
            (isRunning t = true <-> endAt t <> None) ->
            (isRunning (fst (run ops t)) = true <->
             endAt (fst (run ops t)) <> None)).
  { clear. induction ops as [|o ops IH]; intros t Ht; [exact Ht|].
    simpl. rewrite andThen_fst. apply IH, step_running_iff_endAt, Ht. }
  apply Hgen. simpl. split; [discriminate | intros H; exfalso; apply H; reflexivity].
Qed.

(** Every operation keeps the invariant, moving its clock to the last
    reading the operation made. *)
Lemma step_preserves_Inv (o : Op) (clk : Z) (t : Timer) :
  Inv clk t -> valid_op o -> chronological clk (op_times o) ->
  Inv (last (op_times o) clk) (fst (step o t)).
Proof.
  unfold Inv, valid_settings.
  destruct t as [cfg m c r run sa ea rem iv lt ls].
  intros (Hv & [Hr1 Hr2] & Hrem & Hend) Hop Hch.
  cbv [settings isRunning endAt remainingMs mode] in Hv, Hr1, Hr2, Hrem, Hend.
  assert (Hshape : (run = true /\ exists e, ea = Some e /\
                      e <= clk + _modeToMs
                             (mkTimer cfg m c r run sa ea rem iv lt ls) m) \/
                   (run = false /\ ea = None)).
  { destruct run, ea as [e|].
    - left. split; [reflexivity|]. exists e. split; [reflexivity|].
      apply Hend; reflexivity.
    - exfalso. apply Hr1; reflexivity.
    - assert (false = true) by (apply Hr2; discriminate). discriminate.
    - right. split; reflexivity. }
  clear Hr1 Hr2 Hend.
  destruct Hshape as [(-> & e & -> & He) | (-> & ->)];
    destruct o; cbv [step op_times last chronological valid_op] in *;
    unfold valid_settings in *; unfold_engine.
  - inv_finish.
  - inv_finish.
  - destruct iv; unfold_engine; inv_finish.
  - destruct iv; unfold_engine; destruct m; inv_finish.
  - destruct m, (cyclesPerRound cfg <=? c), (autoStart cfg), iv, ls;
      unfold_engine; inv_finish.
  - destruct iv; [|inv_finish].
    destruct (Z.max 0 (e - now) =? 0) eqn:E.
    + destruct m, (cyclesPerRound cfg <=? c), (autoStart cfg), ls;
        unfold_engine; inv_finish.
    + destruct ls, m; unfold_engine; inv_finish.
  - destruct iv, ls, m; unfold_engine; inv_finish.
  - destruct iv, ls, targetMode; unfold_engine; inv_finish.
  - destruct ls; unfold_engine; inv_finish.
  - inv_finish.
  - destruct iv, m; unfold_engine; inv_finish.
  - inv_finish.
  - destruct m; inv_finish.
  - destruct m, (cyclesPerRound cfg <=? c), (autoStart cfg), iv, ls;
      unfold_engine; inv_finish.
  - destruct iv; inv_finish.
  - destruct ls, m; unfold_engine; inv_finish.
  - destruct ls, targetMode; unfold_engine; inv_finish.
  - destruct ls; unfold_engine; inv_finish.
Qed.


Lemma new_Inv (cfg : Settings) (clk : Z) :
  valid_settings cfg -> Inv clk (new cfg).
Proof.
  unfold Inv, valid_settings. unfold_engine. intros Hv.
  repeat split; intros; try tauto; try discriminate; try congruence; try lia.
Qed.



(** ** The counters *)

(** How one operation moves [cycleInRound] and [cyclesPerRound]. *)
Lemma step_cycle (o : Op) (t : Timer) :
  valid_op o -> 1 <= cyclesPerRound (settings t) -> 1 <= cycleInRound t ->
  let t' := fst (step o t) in
  1 <= cyclesPerRound (settings t') /\ 1 <= cycleInRound t' /\
  (match o with
   | OpSetSettings next _ _ => cycleInRound t <= cyclesPerRound next
   | _ => True
   end ->
   cycleInRound t <= cyclesPerRound (settings t) ->
   cycleInRound t' <= cyclesPerRound (settings t')).
Proof.
  destruct t as [cfg m c r run sa ea rem iv lt ls].
  destruct o; cbv [step valid_op]; unfold valid_settings; unfold_engine;
    intros Hop Hcpr Hc; split_matches; unfold_engine; inv_finish.
Qed.

(** C8, as the code has it.  With valid configurations [cycleInRound] is at
    least 1 in every reachable state, and it is at most the active
    [cyclesPerRound] as long as no [setSettings] call brings
    [cyclesPerRound] below the current [cycleInRound]. *)
Theorem cycle_bounds (cfg : Settings) (ops : list Op) :
  valid_settings cfg -> Forall valid_op ops ->
  let t := fst (run ops (new cfg)) in
  1 <= cycleInRound t /\
  (cycle_fits ops (new cfg) -> cycleInRound t <= cyclesPerRound (settings t)).
Proof.
  intros Hv Hops. cbv zeta.
  assert (Hgen : forall ops t, Forall valid_op ops ->
            1 <= cyclesPerRound (settings t) -> 1 <= cycleInRound t ->
            1 <= cycleInRound (fst (run ops t)) /\
            (cycle_fits ops t -> cycleInRound t <= cyclesPerRound (settings t) ->
             cycleInRound (fst (run ops t)) <=
               cyclesPerRound (settings (fst (run ops t))))).
  { clear. induction ops as [|o ops IH]; intros t Hops Hcpr Hc.
    - simpl. split; [assumption | intros _ H; exact H].
    - inversion Hops as [|? ? Ho Hrest]; subst.
      destruct (step_cycle o t Ho Hcpr Hc) as (Hcpr' & Hc' & Hfit).
      destruct (IH (fst (step o t)) Hrest Hcpr' Hc') as [Hlo Hhi].
      simpl. rewrite andThen_fst. split; [exact Hlo|].
      intros [Hfit1 Hfit2] Hle. apply Hhi; [exact Hfit2|].
      apply Hfit; assumption. }
  destruct Hv as (_ & _ & _ & Hcpr).
  destruct (Hgen ops (new cfg) Hops Hcpr ltac:(simpl; lia)) as [Hlo Hhi].
  split; [exact Hlo|]. intros Hfit. apply Hhi; [exact Hfit|]. simpl. exact Hcpr.
Qed.

Lemma cycle_bounds_witness :
  let t := fst (run [OpSkip 0; OpSkip 10; OpSkip 20;
                     OpSetSettings (mkSettings 25 5 15 3 true) 30 30;
                     OpSkip 40; OpTick 50 50 50]
                    (new defaultSettings)) in
  1 <= cycleInRound t /\ cycleInRound t <= cyclesPerRound (settings t).
Proof.
  cbv zeta.
  assert (Hv : valid_settings defaultSettings)
    by (unfold valid_settings; simpl; lia).
  assert (Hops : Forall valid_op
            [OpSkip 0; OpSkip 10; OpSkip 20;
             OpSetSettings (mkSettings 25 5 15 3 true) 30 30;
             OpSkip 40; OpTick 50 50 50])
    by (repeat constructor; unfold valid_settings; simpl; lia).
  split.
  - exact (proj1 (cycle_bounds defaultSettings _ Hv Hops)).
  - apply (proj2 (cycle_bounds defaultSettings _ Hv Hops)).
    vm_compute. repeat split; discriminate.
Defined.

(** C8 as stated fails: after one skip [cycleInRound] is 2, and a
    [setSettings] with the valid value [cyclesPerRound = 1] leaves it at 2. *)
Lemma cycle_bounds_counterexample :
  let next := mkSettings 25 5 15 1 false in
  let t := fst (run [OpSkip 0; OpSetSettings next 10 10]
                    (new defaultSettings)) in
  (1 <= workMinutes next /\ 1 <= shortMinutes next /\ 1 <= longMinutes next /\
   1 <= cyclesPerRound next) /\
  cycleInRound t = 2 /\ cyclesPerRound (settings t) = 1 /\
  ~ (1 <= cycleInRound t <= cyclesPerRound (settings t)).
Proof.
  vm_compute. repeat split; try discriminate.
  intros [_ H]. apply H. reflexivity.
Qed.

(** How one operation moves [round]: direct mode selection never touches it;
    any other operation adds 1 exactly when it makes the mode become Long
    Break. *)
Lemma step_round (o : Op) (t : Timer) :
  let t' := fst (step o t) in
  match o with
  | OpSetMode m _ =>
      mode t' = m /\ round t' = round t /\ cycleInRound t' = cycleInRound t
  | _ =>
      (mode t <> Long -> mode t' = Long -> round t' = round t + 1) /\
      (mode t = Long \/ mode t' <> Long -> round t' = round t)
  end.
Proof.
  destruct t as [cfg m c r run sa ea rem iv lt ls].
  destruct o; cbv [step]; unfold_engine; split_matches; unfold_engine;
    repeat split; intros; try congruence; try lia;
    match goal with H : _ \/ _ |- _ => destruct H; congruence end.
Qed.

Lemma step_round_grows (o : Op) (t : Timer) :
  round t <= round (fst (step o t)).
Proof.
  pose proof (step_round o t) as H. cbv zeta in H.
  destruct o; try (destruct H as (_ & -> & _); lia);
    destruct H as [H1 H2];
    destruct (mode t) eqn:Em, (mode (fst (step _ t))) eqn:Em';
    try (rewrite H2; [lia | first [left; reflexivity | right; discriminate]]);
    rewrite H1; try lia; try discriminate; reflexivity.
Qed.

(** C9, as the code has it.  [round] is at least 1 in every reachable state.
    Direct mode selection sets the mode and leaves [round] and
    [cycleInRound] alone, also when it enters Long Break.  Every other
    operation that makes the mode become Long Break adds 1 to [round], and
    leaves [round] alone whenever it does not enter Long Break. *)
Theorem round_spec :
  (forall cfg ops, 1 <= round (fst (run ops (new cfg)))) /\
  (forall o t,
     let t' := fst (step o t) in
     match o with
     | OpSetMode m _ =>
         mode t' = m /\ round t' = round t /\ cycleInRound t' = cycleInRound t
     | _ =>
         (mode t <> Long -> mode t' = Long -> round t' = round t + 1) /\
         (mode t = Long \/ mode t' <> Long -> round t' = round t)
     end).
Proof.
  split; [|exact step_round].
  intros cfg ops.
  assert (Hgen : forall ops t, 1 <= round t -> 1 <= round (fst (run ops t))).
  { clear. induction ops as [|o ops IH]; intros t Ht; [exact Ht|].
    simpl. rewrite andThen_fst. apply IH.
    pose proof (step_round_grows o t). lia. }
  apply Hgen. simpl. lia.
Qed.

Lemma round_spec_witness :
  let t := fst (run [OpSkip 0; OpSkip 1; OpSkip 2; OpSkip 3; OpSkip 4; OpSkip 5]
                    (new defaultSettings)) in
  let t' := fst (step (OpSkip 6) t) in
  mode t = Work /\ cycleInRound t = 4 /\ round t = 1 /\
  mode t' = Long /\ round t' = round t + 1.
Proof.
  cbv zeta.
  split; [reflexivity|]. split; [reflexivity|]. split; [reflexivity|].
  split; [reflexivity|].
  refine (proj1 (proj2 round_spec (OpSkip 6) _) _ _);
    [discriminate | reflexivity].
Defined.

(** C9 as stated fails: selecting Long Break with its mode button makes the
    mode become Long Break and leaves [round] at 1. *)
Lemma round_setMode_counterexample :
  let t := new defaultSettings in
  let t' := fst (step (OpSetMode Long 0) t) in
  mode t = Work /\ mode t' = Long /\ round t = 1 /\ round t' = 1 /\
  round t' <> round t + 1.
Proof. vm_compute. repeat split; discriminate. Qed.

(** ** The [modeChanged] flag *)

(** C10. [setSettings] hands a registered listener exactly one snapshot; it
    is flagged [modeChanged] and carries the mode the engine already had,
    with the counters unchanged.  So a listener can get [modeChanged = true]
    with the mode of the snapshot before, as after a bare [_emit()] followed
    by [setSettings]. *)
Theorem setSettings_flags_modeChanged :
  (forall next nowP nowS t,
     _listener t = true ->
     exists s,
       snapshots (snd (setSettings next nowP nowS t)) = [s] /\
       snap_modeChanged s = true /\ snap_mode s = mode t /\
       snap_cycleInRound s = cycleInRound t /\ snap_round s = round t /\
       snap_isRunning s = isRunning t /\
       mode (fst (setSettings next nowP nowS t)) = mode t) /\
  (exists ops s1 s2,
     snapshots (snd (run ops (new defaultSettings))) = [s1; s2] /\
     snap_modeChanged s1 = false /\ snap_modeChanged s2 = true /\
     snap_mode s2 = snap_mode s1 /\
     s2 = mkSnapshot (snap_mode s1) (snap_remainingMs s1)
            (snap_cycleInRound s1) (snap_round s1) (snap_totalMs s1)
            (snap_isRunning s1) true).
Proof.
  split.
  - intros next nowP nowS t Hl.
    destruct t as [cfg m c r run sa ea rem iv lt ls].
    cbv [_listener] in Hl. subst ls. unfold_engine.
    destruct run, ea, iv; eexists; repeat split; reflexivity.
  - exists [OpOnChange; OpEmitNow false; OpSetSettings defaultSettings 0 0].
    do 2 eexists. vm_compute. repeat split; reflexivity.
Qed.

Lemma setSettings_flags_modeChanged_witness :
  exists s,
    snapshots (snd (setSettings defaultSettings 10 10
                      (fst (onChange (new defaultSettings))))) = [s] /\
    snap_modeChanged s = true /\ snap_mode s = Work /\
    snap_cycleInRound s = 1 /\ snap_round s = 1 /\
    snap_isRunning s = false /\
    mode (fst (setSettings defaultSettings 10 10
                 (fst (onChange (new defaultSettings))))) = Work.
Proof.
  exact (proj1 setSettings_flags_modeChanged defaultSettings 10 10
           (fst (onChange (new defaultSettings))) eq_refl).
Defined.

(** * Further properties of the engine *)

(** Evaluates the methods on a timer given by its fields and those of its
    configuration. *)
Ltac norm_engine :=
  cbv [setMode setSettings interval_fire tick _onComplete skip
       _advanceMode reset pause start _ensureTicker _emit onChange
       andThen modify call nop _modeToMs new
       set_settings set_mode set_cycleInRound set_round set_isRunning
       set_startedAt set_endAt set_remainingMs set_intervalId set_lastTick
       set_listener
       settings mode cycleInRound round isRunning startedAt endAt
       remainingMs _intervalId _lastTick _listener
       workMinutes shortMinutes longMinutes cyclesPerRound autoStart
       Page.startPauseClick Page.resetClick Page.saveSettingsChanges
       fst snd app negb] in *.

(** ** Reset *)

(** X1. [reset] leaves the engine paused with [remainingMs] the full
    duration of the current mode and [endAt], [startedAt] cleared; the mode,
    the counters, the configuration and the listener are untouched; the only
    call it can make is [clearInterval]; a second [reset] changes nothing. *)
Theorem reset_restores_full (now now2 : Z) (t : Timer) :
  let t' := fst (reset now t) in
  remainingMs t' = _modeToMs t (mode t) /\
  isRunning t' = false /\ endAt t' = None /\ startedAt t' = None /\
  mode t' = mode t /\ cycleInRound t' = cycleInRound t /\
  round t' = round t /\ settings t' = settings t /\
  snd (reset now t) =
    (if isRunning t && _intervalId t then [ClearInterval] else []) /\
  reset now2 t' = (t', []).
Proof.
  destruct t as [cfg m c r run sa ea rem iv lt ls]; unfold_engine.
  destruct run, ea, iv; repeat split; reflexivity.
Qed.

(** ** Sessions of running time *)

Lemma runningTime_nonneg (l : list (Z * Z)) :
  Forall (fun x => fst x <= snd x) l -> 0 <= Page.runningTime l.
Proof.
  induction 1 as [|[s p] l Hx Hl IH]; simpl in *; lia.
Qed.

(** One start click and one pause click on a paused engine. *)
Lemma session_accounts (s p : Z) (t : Timer) :
  isRunning t = false ->
  let t' := fst (Page.startPauseClick s t >> Page.startPauseClick p) in
  remainingMs t' = Z.max 0 (remainingMs t - (p - s)) /\
  isRunning t' = false /\ mode t' = mode t /\
  cycleInRound t' = cycleInRound t /\ round t' = round t /\
  settings t' = settings t.
Proof.
  destruct t as [cfg m c r run sa ea rem iv lt ls].
  cbv [isRunning]. intros ->. cbv [Page.startPauseClick]. unfold_engine.
  destruct iv, ls; unfold_engine; repeat split; try reflexivity;
    f_equal; lia.
Qed.

(** X2. Start/pause clicks in pairs on a paused engine: whatever the number
    of sessions and the gaps between them, the remaining time afterwards is
    the remaining time before less the total running time, cut off at 0;
    the engine is paused and the mode and counters are as before. *)
Theorem sessions_account (l : list (Z * Z)) (t : Timer) :
  isRunning t = false -> 0 <= remainingMs t ->
  Forall (fun x => fst x <= snd x) l ->
  let t' := fst (Page.sessions l t) in
  remainingMs t' = Z.max 0 (remainingMs t - Page.runningTime l) /\
  isRunning t' = false /\ mode t' = mode t /\
  cycleInRound t' = cycleInRound t /\ round t' = round t.
Proof.
  intros Hr Hrem Hl. cbv zeta. revert t Hr Hrem.
  induction Hl as [|[s p] l Hx Hl IH]; intros t Hr Hrem.
  - simpl. repeat split; try assumption; lia.
  - cbn [Page.sessions Page.runningTime]. rewrite andThen_fst.
    destruct (session_accounts s p t Hr) as (H1 & H2 & H3 & H4 & H5 & _).
    destruct (IH _ H2 ltac:(rewrite H1; lia)) as (I1 & I2 & I3 & I4 & I5).
    pose proof (runningTime_nonneg l Hl) as Hn. simpl in Hx.
    rewrite I1, I3, I4, I5, H1, H3, H4, H5.
    repeat split; try assumption; try reflexivity; lia.
Qed.

Lemma sessions_account_witness :
  let t := new defaultSettings in
  let t' := fst (Page.sessions [(0, 1000); (5000, 5250); (9000, 60000)] t) in
  remainingMs t' = Z.max 0 (1500000 - (1000 + 250 + 51000)) /\
  isRunning t' = false /\ mode t' = Work /\
  cycleInRound t' = 1 /\ round t' = 1.
Proof.
  cbv zeta.
  refine (sessions_account [(0, 1000); (5000, 5250); (9000, 60000)]
            (new defaultSettings) _ _ _).
  - reflexivity.
  - vm_compute; discriminate.
  - repeat constructor; vm_compute; discriminate.
Defined.

(** ** The course of a round *)

(** Two advances out of a work session that does not end the round. *)
Lemma two_skips_within_round (a b : Z) (t : Timer) :
  mode t = Work -> cycleInRound t < cyclesPerRound (settings t) ->
  _listener t = true ->
  let r := skip a t >> skip b in
  map snap_mode (snapshots (snd r)) = [Short; Work] /\
  mode (fst r) = Work /\ cycleInRound (fst r) = cycleInRound t + 1 /\
  round (fst r) = round t /\ settings (fst r) = settings t /\
  _listener (fst r) = true.
Proof.
  destruct t as [[wm sm lm cpr au] m c r run sa ea rem iv lt ls].
  cbv [mode cycleInRound settings _listener cyclesPerRound].
  intros -> Hlt ->. apply Z.leb_gt in Hlt.
  unfold_engine. cbn [cyclesPerRound autoStart]. rewrite Hlt.
  destruct au, iv; unfold_engine; repeat split; reflexivity.
Qed.

(** Two advances out of the work session that ends the round. *)
Lemma two_skips_end_round (a b : Z) (t : Timer) :
  mode t = Work -> cyclesPerRound (settings t) <= cycleInRound t ->
  _listener t = true ->
  let r := skip a t >> skip b in
  map snap_mode (snapshots (snd r)) = [Long; Work] /\
  mode (fst r) = Work /\ cycleInRound (fst r) = 1 /\
  round (fst r) = round t + 1 /\ settings (fst r) = settings t.
Proof.
  destruct t as [[wm sm lm cpr au] m c r run sa ea rem iv lt ls].
  cbv [mode cycleInRound settings _listener cyclesPerRound].
  intros -> Hle ->. apply Z.leb_le in Hle.
  unfold_engine. cbn [cyclesPerRound autoStart]. rewrite Hle.
  destruct au, iv; unfold_engine; repeat split; reflexivity.
Qed.

Lemma snapshots_cat (l1 l2 : list Event) :
  snapshots (l1 ++ l2) = snapshots l1 ++ snapshots l2.
Proof.
  induction l1 as [|e l1 IH]; simpl; [reflexivity|].
  destruct e; simpl; rewrite ?IH; reflexivity.
Qed.

Lemma run_two (a b : Op) (ops : list Op) (t : Timer) :
  run (a :: b :: ops) t = (step a t >> step b) >> run ops.
Proof.
  simpl. destruct (step a t) as [t1 l1]. simpl.
  destruct (step b t1) as [t2 l2]. simpl.
  destruct (run ops t2) as [t3 l3]. simpl.
  rewrite app_assoc. reflexivity.
Qed.

(** X3. A round, for any [cyclesPerRound]: from a work session that [k] more
    work sessions follow in the round, [2 * (k + 1)] advances show the
    listener a short break and a work session [k] times, then the long break
    and a work session, and leave the engine in Work with [cycleInRound]
    back at 1 and [round] one higher. *)
Theorem round_runs_to_pattern (k : nat) : forall (t : Timer) (ts : list Z),
  List.length ts = (2 * (k + 1))%nat ->
  mode t = Work ->
  cycleInRound t + Z.of_nat k = cyclesPerRound (settings t) ->
  _listener t = true ->
  let r := run (Page.skips ts) t in
  map snap_mode (snapshots (snd r)) = Page.roundPattern k /\
  mode (fst r) = Work /\ cycleInRound (fst r) = 1 /\
  round (fst r) = round t + 1 /\ settings (fst r) = settings t.
Proof.
  induction k as [|k IH]; intros t ts Hlen Hm Hc Hl; cbv zeta.
  - destruct ts as [|a [|b [|x ts]]]; simpl in Hlen; try lia.
    cbn [Page.skips]. rewrite run_two. cbn [run step].
    destruct (two_skips_end_round a b t Hm ltac:(lia) Hl)
      as (H1 & H2 & H3 & H4 & H5).
    cbv zeta in *.
    destruct (skip a t >> skip b) as [t2 l2]. cbn [andThen fst snd] in *.
    rewrite app_nil_r. repeat split; assumption.
  - destruct ts as [|a [|b ts]]; simpl in Hlen; try lia.
    change (Page.skips (a :: b :: ts))
      with (OpSkip a :: OpSkip b :: Page.skips ts).
    rewrite run_two. cbn [step].
    destruct (two_skips_within_round a b t Hm ltac:(lia) Hl)
      as (H1 & H2 & H3 & H4 & H5 & H6).
    cbv zeta in *.
    rewrite andThen_fst, andThen_snd, snapshots_cat, map_app, H1.
    destruct (IH (fst (skip a t >> skip b)) ts) as (I1 & I2 & I3 & I4 & I5);
      try assumption.
    + simpl in Hlen. lia.
    + rewrite H3, H5. lia.
    + rewrite I1, I4, I5, H4, H5. repeat split; assumption.
Qed.

Lemma round_runs_to_pattern_witness :
  let t := fst (onChange (new defaultSettings)) in
  let r := run (Page.skips [1; 2; 3; 4; 5; 6; 7; 8]) t in
  map snap_mode (snapshots (snd r)) =
    [Short; Work; Short; Work; Short; Work; Long; Work] /\
  mode (fst r) = Work /\ cycleInRound (fst r) = 1 /\
  round (fst r) = 2 /\ settings (fst r) = defaultSettings.
Proof.
  cbv zeta.
  refine (round_runs_to_pattern 3 (fst (onChange (new defaultSettings)))
            [1; 2; 3; 4; 5; 6; 7; 8] _ _ _ _); reflexivity.
Defined.

(** ** What the listener is shown *)

(** The snapshots of one operation are taken in states that satisfy the
    invariant. *)
Lemma step_snapshots_ok (o : Op) (clk : Z) (t : Timer) :
  Inv clk t -> valid_op o -> chronological clk (op_times o) ->
  Forall Page.snapshot_ok (snapshots (snd (step o t))).
Proof.
  unfold Inv, valid_settings, Page.snapshot_ok.
  destruct t as [[wm sm lm cpr au] m c r run sa ea rem iv lt ls].
  cbv [settings isRunning endAt remainingMs mode _modeToMs
       workMinutes shortMinutes longMinutes cyclesPerRound].
  intros (Hv & [Hr1 Hr2] & Hrem & Hend) Hop Hch.
  assert (Hshape : (run = true /\ exists e, ea = Some e) \/
                   (run = false /\ ea = None)).
  { destruct run, ea as [e|].
    - left. split; [reflexivity | exists e; reflexivity].
    - exfalso. apply Hr1; reflexivity.
    - assert (false = true) by (apply Hr2; discriminate). discriminate.
    - right. split; reflexivity. }
  clear Hr1 Hr2.
  destruct Hshape as [(-> & e & ->) | (-> & ->)];
    destruct o; cbv [step op_times chronological valid_op] in *;
    unfold valid_settings in *; unfold_engine;
    cbn [workMinutes shortMinutes longMinutes cyclesPerRound autoStart] in *;
    split_matches; unfold_engine;
    cbn [snapshots workMinutes shortMinutes longMinutes cyclesPerRound
         autoStart] in *;
    repeat constructor;
    cbn [snap_totalMs snap_remainingMs]; arith_facts;
    try specialize (Hend _ eq_refl); try lia.
Qed.

(** X4. With valid configurations and a clock that does not go back, every
    snapshot handed to the listener, by whatever operations, has a positive
    [totalMs] and [0 <= remainingMs <= totalMs]: the progress that [render]
    computes as [1 - remainingMs / totalMs] never divides by zero and lies
    between 0 and 1. *)
Theorem snapshots_within_total (cfg : Settings) (clk : Z) (ops : list Op) :
  valid_settings cfg -> Forall valid_op ops ->
  chronological clk (flat_map op_times ops) ->
  Forall Page.snapshot_ok (snapshots (snd (run ops (new cfg)))).
Proof.
  intros Hv Hops Hch.
  pose proof (new_Inv cfg clk Hv) as HI.
  revert clk HI Hch. generalize (new cfg) as t.
  induction Hops as [|o ops Ho Hops IH]; intros t clk HI Hch.
  - constructor.
  - cbn [run flat_map] in *. apply chronological_app in Hch.
    destruct Hch as [H1 H2].
    rewrite andThen_snd, snapshots_cat. apply Forall_app. split.
    + apply (step_snapshots_ok o clk t HI Ho H1).
    + apply (IH _ (last (op_times o) clk));
        [apply step_preserves_Inv; assumption | exact H2].
Qed.

Lemma snapshots_within_total_witness :
  Forall Page.snapshot_ok
    (snapshots (snd (run [OpOnChange; OpStart 0; OpTick 250 250 250;
                          OpPause 1000; OpSkip 3000;
                          OpSetSettings defaultSettings 4000 4000]
                         (new defaultSettings)))).
Proof.
  refine (snapshots_within_total defaultSettings 0 _ _ _ _).
  - unfold valid_settings; simpl; lia.
  - repeat constructor; unfold valid_settings; simpl; lia.
  - simpl; lia.
Defined.

(** ** The interval *)

Lemma intervalTrace_app (l1 l2 : list Event) : forall live,
  Page.intervalTrace live (l1 ++ l2) =
  match Page.intervalTrace live l1 with
  | Some live' => Page.intervalTrace live' l2
  | None => None
  end.
Proof.
  induction l1 as [|e l1 IH]; intros live; [reflexivity|].
  destruct e, live; simpl; auto.
Qed.

Lemma step_intervalTrace (o : Op) (t : Timer) :
  Page.intervalTrace (_intervalId t) (snd (step o t)) =
  Some (_intervalId (fst (step o t))).
Proof.
  destruct t as [[wm sm lm cpr au] m c r run sa ea rem iv lt ls].
  destruct o; cbv [step]; unfold_engine; cbn [cyclesPerRound autoStart];
    try (destruct iv, run, ea, ls; reflexivity);
    try (destruct m, (cpr <=? c), au, iv, ls; reflexivity).
  destruct iv, run; try reflexivity.
  destruct ea as [e|]; cbn [remainingMs];
    [destruct (Z.max 0 (e - now) =? 0) | destruct (rem =? 0)];
    unfold_engine; cbn [cyclesPerRound autoStart];
    destruct m, (cpr <=? c), au, ls; reflexivity.
Qed.

(** X5. At most one interval: in the calls of any run from a fresh engine
    [setInterval] is only called while no interval is live and
    [clearInterval] only while one is, and [_intervalId] at the end tells
    whether one is live. *)
Theorem one_interval_at_a_time (cfg : Settings) (ops : list Op) :
  Page.intervalTrace false (snd (run ops (new cfg))) =
  Some (_intervalId (fst (run ops (new cfg)))).
Proof.
  change false with (_intervalId (new cfg)).
  generalize (new cfg) as t.
  induction ops as [|o ops IH]; intros t; [reflexivity|].
  cbn [run]. rewrite andThen_snd, andThen_fst, intervalTrace_app.
  rewrite step_intervalTrace. apply IH.
Qed.

(** X6. [skip] on a running engine without auto-start pauses the engine but
    leaves its interval installed: no [clearInterval] is called, later
    firings do nothing, and the next [start] installs no second interval. *)
Theorem skip_keeps_interval (now : Z) (t : Timer) :
  isRunning t = true -> _intervalId t = true ->
  autoStart (settings t) = false ->
  let t' := fst (skip now t) in
  isRunning t' = false /\ _intervalId t' = true /\
  ~ In ClearInterval (snd (skip now t)) /\
  (forall later, run (firings later) t' = (t', [])) /\
  (forall now', snd (start now' t') = [] /\
                isRunning (fst (start now' t')) = true).
Proof.
  intros Hr Hi Ha. cbv zeta.
  assert (H : isRunning (fst (skip now t)) = false /\
              _intervalId (fst (skip now t)) = true /\
              ~ In ClearInterval (snd (skip now t))).
  { destruct t as [[wm sm lm cpr au] m c r run sa ea rem iv lt ls].
    cbv [isRunning _intervalId settings autoStart] in Hr, Hi, Ha. subst.
    unfold_engine. cbn [autoStart cyclesPerRound].
    destruct m, (cpr <=? c), ls; unfold_engine;
      repeat split; try reflexivity; simpl; intuition discriminate. }
  destruct H as (H1 & H2 & H3).
  repeat split; try assumption.
  - intros later. apply firings_when_paused. exact H1.
  - unfold start. rewrite H1. cbv [_ensureTicker].
    change (_intervalId (set_lastTick (Some now')
              (set_endAt
                 (Some (now' + remainingMs
                          (set_startedAt (Some now')
                             (set_isRunning true (fst (skip now t))))))
                 (set_startedAt (Some now')
                    (set_isRunning true (fst (skip now t)))))))
      with (_intervalId (fst (skip now t))).
    rewrite H2. reflexivity.
  - unfold start. rewrite H1. cbv [_ensureTicker].
    match goal with |- isRunning (fst (if ?b then _ else _)) = true =>
      destruct b end; reflexivity.
Qed.

Lemma skip_keeps_interval_witness :
  let t := fst (start 0 (new defaultSettings)) in
  let t' := fst (skip 100 t) in
  isRunning t' = false /\ _intervalId t' = true /\
  ~ In ClearInterval (snd (skip 100 t)) /\
  (forall later, run (firings later) t' = (t', [])) /\
  (forall now', snd (start now' t') = [] /\
                isRunning (fst (start now' t')) = true).
Proof.
  cbv zeta.
  refine (skip_keeps_interval 100 (fst (start 0 (new defaultSettings))) _ _ _);
    reflexivity.
Defined.

(** ** Direct mode selection *)

(** X7. A mode button never starts a session, whatever auto-start says: the
    engine ends paused in the selected mode with [endAt] cleared and
    [remainingMs] the full duration of that mode; the configuration is
    untouched, no alarm is rung, and a registered listener gets one snapshot,
    flagged [modeChanged], paused, with the remaining time equal to the
    total. *)
Theorem setMode_never_starts (m : Mode) (now : Z) (t : Timer) :
  let r := setMode m now t in
  mode (fst r) = m /\ isRunning (fst r) = false /\ endAt (fst r) = None /\
  remainingMs (fst r) = _modeToMs t m /\ settings (fst r) = settings t /\
  alarms (snd r) = [] /\
  (_listener t = true ->
   snapshots (snd r) =
     [mkSnapshot m (_modeToMs t m) (cycleInRound t) (round t)
        (_modeToMs t m) false true]).
Proof.
  destruct t as [cfg md c r run sa ea rem iv lt ls]; unfold_engine.
  destruct run, ea, iv, ls, m; repeat split; intros;
    try discriminate; reflexivity.
Qed.

Lemma setMode_never_starts_witness :
  let t := fst (start 0 (fst (onChange
             (new (mkSettings 25 5 15 4 true))))) in
  snapshots (snd (setMode Long 10 t)) =
    [mkSnapshot Long (_modeToMs t Long) (cycleInRound t) (round t)
       (_modeToMs t Long) false true].
Proof.
  cbv zeta.
  refine (proj2 (proj2 (proj2 (proj2 (proj2 (proj2
            (setMode_never_starts Long 10
               (fst (start 0 (fst (onChange
                  (new (mkSettings 25 5 15 4 true)))))))))))) _).
  reflexivity.
Defined.

(** ** When the callback completes a session *)



(** X9. The bound on [remainingMs] rests on the clock: if the reading at the
    callback lies [d > 0] before the reading at [start], the callback stores
    the remaining time plus [d], and the session lasts that much longer. *)
Theorem tick_after_clock_step_back (s d nowP nowA : Z) (t : Timer) :
  isRunning t = false -> 0 < remainingMs t -> 0 < d ->
  let t1 := fst (start s t) in
  let t2 := fst (tick (s - d) nowP nowA t1) in
  remainingMs t2 = remainingMs t + d /\ isRunning t2 = true /\
  endAt t2 = Some (s + remainingMs t) /\ mode t2 = mode t.
Proof.
  destruct t as [cfg m c r run sa ea rem iv lt ls].
  cbv [isRunning remainingMs]. intros -> Hrem Hd. unfold_engine.
  assert (Hm : Z.max 0 (s + rem - (s - d)) = rem + d) by lia.
  destruct iv; unfold_engine; rewrite Hm;
    (destruct (rem + d =? 0) eqn:E; [apply Z.eqb_eq in E; lia|]);
    destruct ls; repeat split; reflexivity.
Qed.

Lemma tick_after_clock_step_back_witness :
  let t1 := fst (start 10000 (new defaultSettings)) in
  let t2 := fst (tick (10000 - 4000) 6000 6000 t1) in
  remainingMs t2 = 1500000 + 4000 /\ isRunning t2 = true /\
  endAt t2 = Some (10000 + 1500000) /\ mode t2 = Work.
Proof.
  cbv zeta.
  refine (tick_after_clock_step_back 10000 4000 6000 6000
            (new defaultSettings) _ _ _);
    [reflexivity | vm_compute; reflexivity | lia].
Defined.

(** * Properties of the page's helpers *)

(** ** Printing and parsing integers *)

Lemma append_assoc_ (a b c : string) :
  ((a ++ b) ++ c)%string = (a ++ (b ++ c))%string.
Proof. induction a as [|x a IH]; simpl; [reflexivity | rewrite IH; reflexivity]. Qed.

Lemma digitValue_digitChar (d : Z) :
  0 <= d <= 9 -> JS.digitValue (JS.digitChar d) = Some d.
Proof.
  intros H.
  assert (Hd : d = 0 \/ d = 1 \/ d = 2 \/ d = 3 \/ d = 4 \/ d = 5 \/ d = 6 \/
               d = 7 \/ d = 8 \/ d = 9) by lia.
  repeat (destruct Hd as [-> | Hd]; [reflexivity|]). subst; reflexivity.
Qed.

(** A string that begins with a digit is parsed from its first character. *)
Lemma parseInt_startsWithDigit (s : string) :
  JS.startsWithDigit s = true -> JS.parseInt s = Some (JS.parseDigits s 0).
Proof.
  destruct s as [|c r]; [discriminate|].
  unfold JS.parseInt.
  destruct c as [[] [] [] [] [] [] [] []]; try discriminate; intros _;
    cbn [JS.trimStart JS.isWhiteSpace JS.code N_of_ascii N_of_digits
         Z.of_N Z.leb Z.eqb Z.compare Pos.compare Pos.compare_cont
         andb orb Pos.eqb N.add N.mul Pos.add Pos.mul Pos.succ];
    cbv [JS.trimStart JS.isWhiteSpace JS.startsWithDigit JS.digitValue];
    rewrite Z.mul_1_l; reflexivity.
Qed.

(** Parsing the digits of [n] gives [n] back and goes on with what
    follows. *)
Lemma parseDigits_digits (f : nat) : forall (n : Z) (rest : string),
  0 <= n < 10 ^ Z.of_nat f ->
  JS.parseDigits (JS.digits f n ++ rest) 0 = JS.parseDigits rest n.
Proof.
  induction f as [|f IH]; intros n rest Hn.
  - simpl in *. replace n with 0 by lia. reflexivity.
  - cbn [JS.digits]. destruct (n <? 10) eqn:E.
    + apply Z.ltb_lt in E. cbn [append JS.parseDigits].
      rewrite digitValue_digitChar by lia. reflexivity.
    + apply Z.ltb_ge in E. rewrite append_assoc_.
      rewrite IH.
      * cbn [append JS.parseDigits].
        rewrite digitValue_digitChar by (pose proof (Z.mod_pos_bound n 10); lia).
        f_equal. pose proof (Z.div_mod n 10). lia.
      * rewrite Nat2Z.inj_succ, Z.pow_succ_r in Hn by lia.
        split; [apply Z.div_pos; lia|].
        apply Z.div_lt_upper_bound; lia.
Qed.

Lemma startsWithDigit_digits (f : nat) : forall (n : Z) (s : string),
  0 <= n -> JS.startsWithDigit s = true ->
  JS.startsWithDigit (JS.digits f n ++ s) = true.
Proof.
  induction f as [|f IH]; intros n s Hn Hs; [exact Hs|].
  cbn [JS.digits]. destruct (n <? 10) eqn:E.
  - apply Z.ltb_lt in E. cbn [append JS.startsWithDigit].
    rewrite digitValue_digitChar by lia. reflexivity.
  - apply Z.ltb_ge in E. rewrite append_assoc_. apply IH.
    + apply Z.div_pos; lia.
    + cbn [append JS.startsWithDigit].
      rewrite digitValue_digitChar
        by (pose proof (Z.mod_pos_bound n 10); lia).
      reflexivity.
Qed.

Lemma fuel_suffices (m : Z) :
  0 <= m -> 0 <= m < 10 ^ Z.of_nat (S (Z.to_nat (Z.log2 m))).
Proof.
  intros Hm. split; [exact Hm|].
  rewrite Nat2Z.inj_succ, Z2Nat.id by apply Z.log2_nonneg.
  destruct (Z.eq_dec m 0) as [->|Hne]; [reflexivity|].
  pose proof (Z.log2_spec m ltac:(lia)) as [_ Hlt].
  pose proof (Z.log2_nonneg m) as Hl.
  assert (H2 : 2 ^ Z.succ (Z.log2 m) <= 10 ^ Z.succ (Z.log2 m))
    by (apply Z.pow_le_mono_l; lia).
  lia.
Qed.

(** The printed form of [n >= 0] begins with a digit and parses to [n],
    whatever non-digit follows. *)
Lemma parse_String_nonneg (n : Z) (rest : string) :
  0 <= n -> JS.startsWithDigit rest = false ->
  JS.startsWithDigit (JS.String_ n ++ rest) = true /\
  JS.parseDigits (JS.String_ n ++ rest) 0 = n.
Proof.
  intros Hn Hrest. unfold JS.String_.
  assert (E : (n <? 0) = false) by (apply Z.ltb_ge; lia). rewrite E.
  rewrite Z.abs_eq by lia. split.
  - cbn [JS.digits]. destruct (n <? 10) eqn:E10.
    + apply Z.ltb_lt in E10. cbn [append JS.startsWithDigit].
      rewrite digitValue_digitChar by lia. reflexivity.
    + apply Z.ltb_ge in E10. rewrite append_assoc_.
      apply startsWithDigit_digits; [apply Z.div_pos; lia|].
      cbn [append JS.startsWithDigit].
      rewrite digitValue_digitChar
        by (pose proof (Z.mod_pos_bound n 10); lia).
      reflexivity.
  - rewrite parseDigits_digits by (apply fuel_suffices; lia).
    destruct rest as [|c r]; [reflexivity|].
    cbn [JS.startsWithDigit JS.parseDigits] in *.
    destruct (JS.digitValue c); [discriminate | reflexivity].
Qed.

(** [Number.parseInt(String(n), 10)] is [n], for every integer [n] and
    whatever non-digit text follows the number. *)
Lemma parseInt_String (n : Z) (rest : string) :
  JS.startsWithDigit rest = false ->
  JS.parseInt (JS.String_ n ++ rest) = Some n.
Proof.
  intros Hrest. destruct (Z.ltb_spec n 0) as [Hneg | Hpos].
  - destruct (parse_String_nonneg (- n) rest ltac:(lia) Hrest) as [Hs Hp].
    unfold JS.String_ in *.
    assert (E : (n <? 0) = true) by (apply Z.ltb_lt; lia).
    assert (E' : (- n <? 0) = false) by (apply Z.ltb_ge; lia).
    rewrite E. rewrite E' in Hs, Hp.
    rewrite Z.abs_opp in Hs, Hp. rewrite Z.abs_neq in * by lia.
    unfold JS.parseInt. cbn [append JS.trimStart].
    change (JS.isWhiteSpace "-"%char) with false. cbv iota.
    rewrite Hs, Hp. f_equal. lia.
  - destruct (parse_String_nonneg n rest Hpos Hrest) as [Hs Hp].
    rewrite parseInt_startsWithDigit by exact Hs. rewrite Hp. reflexivity.
Qed.

(** ** [clampInt] *)

Lemma string_append_nil (s : string) : (s ++ "")%string = s.
Proof. induction s as [|c s IH]; simpl; [reflexivity | rewrite IH; reflexivity]. Qed.

(** [clampInt] stays within a range that holds the fallback. *)
Lemma clampInt_in_range_aux (value : string) (min max fallback : Z) :
  min <= fallback <= max ->
  min <= Page.clampInt value min max fallback <= max.
Proof.
  intros Hf. unfold Page.clampInt.
  destruct (JS.parseInt value) as [n|]; lia.
Qed.

(** [clampInt] of a printed integer. *)
Lemma clampInt_of_String_aux (n min max fallback : Z) :
  Page.clampInt (JS.String_ n) min max fallback = Z.min max (Z.max min n) /\
  (min <= n <= max -> Page.clampInt (JS.String_ n) min max fallback = n).
Proof.
  unfold Page.clampInt.
  rewrite <- (string_append_nil (JS.String_ n)).
  rewrite parseInt_String by reflexivity. split; [reflexivity | lia].
Qed.

Lemma nextSettings_valid_aux (f : Page.Form) :
  valid_settings (Page.nextSettings f).
Proof.
  unfold valid_settings, Page.nextSettings.
  cbn [workMinutes shortMinutes longMinutes cyclesPerRound defaultSettings].
  pose proof (clampInt_in_range_aux (Page.settingWork f) 1 180 25).
  pose proof (clampInt_in_range_aux (Page.settingShort f) 1 60 5).
  pose proof (clampInt_in_range_aux (Page.settingLong f) 1 60 15).
  pose proof (clampInt_in_range_aux (Page.settingCycles f) 1 12 4).
  lia.
Qed.

(** X10. [clampInt] never leaves the range when the fallback lies in it:
    text without a number gives the fallback, a number is brought to the
    nearest bound. *)
Theorem clampInt_in_range (value : string) (min max fallback : Z) :
  min <= fallback <= max ->
  min <= Page.clampInt value min max fallback <= max /\
  (JS.parseInt value = None ->
   Page.clampInt value min max fallback = fallback) /\
  (forall n, JS.parseInt value = Some n -> n <= min ->
   Page.clampInt value min max fallback = min) /\
  (forall n, JS.parseInt value = Some n -> max <= n ->
   Page.clampInt value min max fallback = max).
Proof.
  intros Hf. unfold Page.clampInt.
  destruct (JS.parseInt value) as [n|]; repeat split; intros;
    try discriminate; arith_facts; try lia.
Qed.

Lemma clampInt_in_range_witness :
  1 <= Page.clampInt "abc" 1 180 25 <= 180 /\
  (JS.parseInt "abc" = None -> Page.clampInt "abc" 1 180 25 = 25) /\
  (forall n, JS.parseInt "abc" = Some n -> n <= 1 ->
   Page.clampInt "abc" 1 180 25 = 1) /\
  (forall n, JS.parseInt "abc" = Some n -> 180 <= n ->
   Page.clampInt "abc" 1 180 25 = 180).
Proof.
  refine (clampInt_in_range "abc" 1 180 25 _). lia.
Defined.



(** ** The settings dialog *)

(** X12. Whatever the dialog's fields hold, the configuration that
    [saveSettingsChanges] builds is valid: the minutes lie in [1, 180],
    [1, 60] and [1, 60] and [cyclesPerRound] in [1, 12]. *)
Theorem saved_settings_valid (f : Page.Form) :
  let next := Page.nextSettings f in
  valid_settings next /\
  workMinutes next <= 180 /\ shortMinutes next <= 60 /\
  longMinutes next <= 60 /\ cyclesPerRound next <= 12.
Proof.
  cbv zeta. unfold valid_settings, Page.nextSettings.
  cbn [workMinutes shortMinutes longMinutes cyclesPerRound defaultSettings].
  pose proof (clampInt_in_range_aux (Page.settingWork f) 1 180 25).
  pose proof (clampInt_in_range_aux (Page.settingShort f) 1 60 5).
  pose proof (clampInt_in_range_aux (Page.settingLong f) 1 60 15).
  pose proof (clampInt_in_range_aux (Page.settingCycles f) 1 12 4).
  lia.
Qed.

(** X13. Saving the dialog as the page filled it in gives back the
    configuration it was filled from, provided that configuration is within
    the dialog's ranges. *)
Theorem unchanged_dialog_keeps_settings (c : Settings) :
  1 <= workMinutes c <= 180 -> 1 <= shortMinutes c <= 60 ->
  1 <= longMinutes c <= 60 -> 1 <= cyclesPerRound c <= 12 ->
  Page.nextSettings (Page.formOf c) = c.
Proof.
  intros Hw Hs Hl Hc. destruct c as [wm sm lm cpr au].
  cbn [workMinutes shortMinutes longMinutes cyclesPerRound] in *.
  unfold Page.nextSettings, Page.formOf.
  cbn [Page.settingWork Page.settingShort Page.settingLong
       Page.settingCycles Page.settingAutoStart].
  rewrite (proj2 (clampInt_of_String_aux wm 1 180 _) Hw).
  rewrite (proj2 (clampInt_of_String_aux sm 1 60 _) Hs).
  rewrite (proj2 (clampInt_of_String_aux lm 1 60 _) Hl).
  rewrite (proj2 (clampInt_of_String_aux cpr 1 12 _) Hc).
  reflexivity.
Qed.

Lemma unchanged_dialog_keeps_settings_witness :
  Page.nextSettings (Page.formOf defaultSettings) = defaultSettings.
Proof.
  refine (unchanged_dialog_keeps_settings defaultSettings _ _ _ _);
    simpl; lia.
Defined.

(** X14. Saving the dialog keeps the engine's invariant, whatever the fields
    hold: after [saveSettingsChanges] the saved configuration is active,
    [remainingMs] is the full duration of the current mode under it, and a
    registered listener has been shown the new state twice, both snapshots
    flagged [modeChanged]. *)
Theorem save_keeps_invariant (f : Page.Form) (clk nowP nowS : Z) (t : Timer) :
  Inv clk t -> clk <= nowP <= nowS ->
  let r := Page.saveSettingsChanges f nowP nowS t in
  Inv nowS (fst r) /\
  settings (fst r) = Page.nextSettings f /\
  remainingMs (fst r) = _modeToMs (fst r) (mode (fst r)) /\
  isRunning (fst r) = isRunning t /\
  (_listener t = true ->
   exists s, snapshots (snd r) = [s; s] /\ snap_modeChanged s = true /\
             snap_remainingMs s = snap_totalMs s).
Proof.
  intros HI Hclk. cbv zeta.
  assert (Hv : valid_op (OpSetSettings (Page.nextSettings f) nowP nowS))
    by (exact (nextSettings_valid_aux f)).
  pose proof (step_preserves_Inv _ clk t HI Hv
                ltac:(simpl; lia)) as H1.
  cbn [op_times last step] in H1.
  pose proof (step_preserves_Inv (OpEmitNow true) nowS _ H1 I I) as H2.
  cbn [op_times last step] in H2.
  unfold Page.saveSettingsChanges. rewrite andThen_fst, andThen_snd.
  split; [exact H2|].
  generalize (Page.nextSettings f) as next. intros next. clear.
  destruct t as [cfg m c r run sa ea rem iv lt ls]; unfold_engine.
  destruct run, ea, iv, ls; repeat split; intros; try discriminate;
    eexists; repeat split; reflexivity.
Qed.

Lemma save_keeps_invariant_witness :
  let r := Page.saveSettingsChanges (Page.mkForm "0" "" "7.5" "abc" true)
             10 10 (new defaultSettings) in
  Inv 10 (fst r) /\
  settings (fst r) = Page.nextSettings (Page.mkForm "0" "" "7.5" "abc" true) /\
  remainingMs (fst r) = _modeToMs (fst r) (mode (fst r)) /\
  isRunning (fst r) = isRunning (new defaultSettings) /\
  (_listener (new defaultSettings) = true ->
   exists s, snapshots (snd r) = [s; s] /\ snap_modeChanged s = true /\
             snap_remainingMs s = snap_totalMs s).
Proof.
  cbv zeta.
  refine (save_keeps_invariant (Page.mkForm "0" "" "7.5" "abc" true)
            0 10 10 (new defaultSettings) _ _).
  - apply new_Inv. unfold valid_settings; simpl; lia.
  - lia.
Defined.

(** ** [formatMs] *)

Lemma ceilDiv_bounds (ms : Z) :
  0 <= ms ->
  0 <= JS.ceilDiv ms 1000 /\
  1000 * JS.ceilDiv ms 1000 - 1000 < ms <= 1000 * JS.ceilDiv ms 1000.
Proof.
  intros Hms. unfold JS.ceilDiv.
  pose proof (Z.div_mod (- ms) 1000 ltac:(lia)).
  pose proof (Z.mod_pos_bound (- ms) 1000 ltac:(lia)). lia.
Qed.

(** A padded non-negative number still parses to itself. *)
Lemma parseInt_padStart2 (n : Z) (rest : string) :
  0 <= n -> JS.startsWithDigit rest = false ->
  JS.parseInt (JS.padStart2 (JS.String_ n) ++ rest) = Some n.
Proof.
  intros Hn Hrest.
  destruct (parse_String_nonneg n rest Hn Hrest) as [Hs Hp].
  unfold JS.padStart2.
  destruct (JS.String_ n) as [|c [|c' s]] eqn:E; cbn [String.length].
  - cbn [append] in Hs. congruence.
  - rewrite parseInt_startsWithDigit by reflexivity.
    cbn [append] in Hp |- *.
    change (JS.parseDigits (String "0"%char (String c rest)) 0)
      with (JS.parseDigits (String c rest) 0).
    rewrite Hp. reflexivity.
  - rewrite parseInt_startsWithDigit by exact Hs. rewrite Hp. reflexivity.
Qed.

Lemma length_append_ (a b : string) :
  String.length (a ++ b) = (String.length a + String.length b)%nat.
Proof. induction a as [|x a IH]; simpl; [reflexivity | rewrite IH; reflexivity]. Qed.




(** X16. The display reads [00:00] only when nothing remains: any
    [ms > 0], however small, shows at least [00:01]. *)
Theorem formatMs_zero_iff (ms : Z) :
  0 <= ms -> (Page.formatMs ms = "00:00"%string <-> ms = 0).
Proof.
  intros Hms. split; [|intros ->; reflexivity].
  intros H0.
  destruct (ceilDiv_bounds ms Hms) as [HT Hb].
  revert H0. unfold Page.formatMs.
  set (T := JS.ceilDiv ms 1000) in *.
  assert (Hrem : Z.rem T 60 = T mod 60) by (apply Z.rem_mod_nonneg; lia).
  pose proof (Z.div_mod T 60 ltac:(lia)) as Hdm.
  pose proof (Z.mod_pos_bound T 60 ltac:(lia)) as Hmod.
  assert (Hm0 : 0 <= T / 60) by (apply Z.div_pos; lia).
  rewrite Hrem. intros H0.
  assert (Hm : T / 60 = 0).
  { pose proof (parseInt_padStart2 (T / 60)
                  (":" ++ JS.padStart2 (JS.String_ (T mod 60))) Hm0 eq_refl)
      as Hp.
    rewrite H0 in Hp.
    change (JS.parseInt "00:00") with (Some 0) in Hp. congruence. }
  rewrite Hm in H0.
  change (JS.padStart2 (JS.String_ 0)) with "00"%string in H0.
  cbn [append] in H0.
  assert (Hs : JS.padStart2 (JS.String_ (T mod 60)) = "00"%string)
    by congruence.
  pose proof (parseInt_padStart2 (T mod 60) "" ltac:(lia) eq_refl) as Hp.
  rewrite string_append_nil, Hs in Hp.
  change (JS.parseInt "00") with (Some 0) in Hp.
  assert (T mod 60 = 0) by congruence. lia.
Qed.

Lemma formatMs_zero_iff_witness :
  Page.formatMs 1 = "00:00"%string <-> 1 = 0.
Proof.
  refine (formatMs_zero_iff 1 _). lia.
Defined.

(** * Properties of the earlier copy *)

Ltac norm_legacy :=
  cbv [LegacyRun.step LegacyRun.ofApp
       Legacy.setSettings Legacy.interval_fire Legacy.tick Legacy._onComplete
       Legacy.skip Legacy._advanceMode Legacy.reset Legacy.pause Legacy.start
       Legacy._ensureTicker Legacy._emit Legacy.onChange Legacy._modeToMs
       Legacy.new andThen modify call nop
       Legacy.set_settings Legacy.set_mode Legacy.set_cycleInRound
       Legacy.set_round Legacy.set_isRunning Legacy.set_startedAt
       Legacy.set_remainingMs Legacy.set_intervalId Legacy.set_lastTick
       Legacy.set_listener
       Legacy.settings Legacy.mode Legacy.cycleInRound Legacy.round
       Legacy.isRunning Legacy.startedAt Legacy.remainingMs
       Legacy._intervalId Legacy._lastTick Legacy._listener
       workMinutes shortMinutes longMinutes cyclesPerRound autoStart
       fst snd app negb] in *.

(** One callback run of the earlier copy that does not use up the
    remaining time. *)
Lemma legacy_tick_step (now l : Z) (t : Legacy.Timer) :
  Legacy.isRunning t = true -> Legacy._lastTick t = Some l ->
  l <= now -> now - l < Legacy.remainingMs t ->
  let t' := fst (Legacy.tick now t) in
  Legacy.remainingMs t' = Legacy.remainingMs t - (now - l) /\
  Legacy.isRunning t' = true /\ Legacy._lastTick t' = Some now /\
  Legacy.mode t' = Legacy.mode t.
Proof.
  destruct t as [cfg m c r run sa rem iv lt ls].
  cbv [Legacy.isRunning Legacy._lastTick Legacy.remainingMs].
  intros -> -> Hle Hlt. norm_legacy.
  replace (Z.max 0 (rem - Z.max 0 (now - l))) with (rem - (now - l)) by lia.
  destruct (rem - (now - l) =? 0) eqn:E; [apply Z.eqb_eq in E; lia|].
  destruct ls; repeat split; reflexivity.
Qed.

(** X17. In the earlier copy the per-tick deltas add up: over any number of
    callback runs at readings that do not go back, and as long as the time
    is not used up, [remainingMs] has gone down by exactly the time between
    the reading that [start] (or the tick before) took and the last
    reading, however the runs are spaced. *)
Theorem legacy_ticks_telescope (ts : list Z) :
  forall (t : Legacy.Timer) (t0 : Z),
    Legacy.isRunning t = true -> Legacy._lastTick t = Some t0 ->
    chronological t0 ts -> last ts t0 - t0 < Legacy.remainingMs t ->
    let t' := fst (LegacyRun.ticks ts t) in
    Legacy.remainingMs t' = Legacy.remainingMs t - (last ts t0 - t0) /\
    Legacy.isRunning t' = true /\ Legacy._lastTick t' = Some (last ts t0) /\
    Legacy.mode t' = Legacy.mode t.
Proof.
  induction ts as [|a ts IH]; intros t t0 Hr Hl Hch Hlt; cbv zeta.
  - cbn [LegacyRun.ticks last fst]. repeat split; try assumption. lia.
  - rewrite last_cons in *. cbn [chronological] in Hch.
    destruct Hch as [Ha Hch].
    assert (Hmono : a <= last ts a).
    { clear - Hch. revert a Hch. induction ts as [|b ts IHts]; intros a Hch.
      - simpl; lia.
      - rewrite last_cons. cbn [chronological] in Hch.
        destruct Hch as [Hab Hch]. specialize (IHts b Hch). lia. }
    destruct (legacy_tick_step a t0 t Hr Hl Ha ltac:(lia))
      as (H1 & H2 & H3 & H4).
    cbn [LegacyRun.ticks]. rewrite andThen_fst.
    destruct (IH _ a H2 H3 Hch ltac:(rewrite H1; lia)) as (I1 & I2 & I3 & I4).
    rewrite I1, I4, H1, H4. repeat split; try assumption; lia.
Qed.

Lemma legacy_ticks_telescope_witness :
  let t := fst (Legacy.start 100 (Legacy.new defaultSettings)) in
  let t' := fst (LegacyRun.ticks [350; 600; 9000; 9001] t) in
  Legacy.remainingMs t' = 1500000 - (9001 - 100) /\
  Legacy.isRunning t' = true /\ Legacy._lastTick t' = Some 9001 /\
  Legacy.mode t' = Work.
Proof.
  cbv zeta.
  refine (legacy_ticks_telescope [350; 600; 9000; 9001]
            (fst (Legacy.start 100 (Legacy.new defaultSettings))) 100 _ _ _ _);
    [reflexivity | reflexivity | simpl; lia | vm_compute; reflexivity].
Defined.

(** One operation of the earlier copy keeps [remainingMs] within the full
    duration of the mode. *)
Lemma legacy_step_bounded (o : LegacyRun.Op) (t : Legacy.Timer) :
  valid_settings (Legacy.settings t) -> LegacyRun.valid_op o ->
  0 <= Legacy.remainingMs t <= Legacy._modeToMs t (Legacy.mode t) ->
  let t' := fst (LegacyRun.step o t) in
  valid_settings (Legacy.settings t') /\
  0 <= Legacy.remainingMs t' <= Legacy._modeToMs t' (Legacy.mode t').
Proof.
  unfold valid_settings.
  destruct t as [[wm sm lm cpr au] m c r run sa rem iv lt ls].
  destruct o as [|now| | | |now|[wm' sm' lm' cpr' au'] nowS|b];
    cbv [LegacyRun.valid_op]; unfold valid_settings; norm_legacy;
    intros Hv Hop Hrem.
  - destruct m; repeat split; lia.
  - destruct run, iv, m; repeat split; lia.
  - destruct run, iv, m; repeat split; lia.
  - destruct run, iv, m; repeat split; lia.
  - destruct m, (cpr <=? c), ls; repeat split; lia.
  - destruct iv, run; try (destruct m; repeat split; lia).
    destruct (Z.max 0 (rem - Z.max 0 (now - match lt with
                                             | Some l => l
                                             | None => 0
                                             end)) =? 0) eqn:E.
    + destruct m, (cpr <=? c), ls; repeat split; lia.
    + destruct ls, m; repeat split; lia.
  - destruct run, iv, m; repeat split; lia.
  - destruct ls, m; repeat split; lia.
Qed.

(** X18. In the earlier copy [0 <= remainingMs <= full duration of the mode]
    holds after every sequence of operations with valid configurations,
    whatever the clock readings: a delta is never negative, so the
    countdown never gains time. *)
Theorem legacy_remaining_bounded (cfg : Settings) (ops : list LegacyRun.Op) :
  valid_settings cfg -> Forall LegacyRun.valid_op ops ->
  let t := fst (LegacyRun.run ops (Legacy.new cfg)) in
  0 <= Legacy.remainingMs t <= Legacy._modeToMs t (Legacy.mode t).
Proof.
  intros Hv Hops. cbv zeta.
  assert (Hgen : forall ops t, Forall LegacyRun.valid_op ops ->
            valid_settings (Legacy.settings t) ->
            0 <= Legacy.remainingMs t <= Legacy._modeToMs t (Legacy.mode t) ->
            0 <= Legacy.remainingMs (fst (LegacyRun.run ops t)) <=
              Legacy._modeToMs (fst (LegacyRun.run ops t))
                (Legacy.mode (fst (LegacyRun.run ops t)))).
  { clear. induction ops as [|o ops IH]; intros t Hops Hv Hrem.
    - exact Hrem.
    - inversion Hops as [|? ? Ho Hrest]; subst.
      destruct (legacy_step_bounded o t Hv Ho Hrem) as [Hv' Hrem'].
      cbn [LegacyRun.run]. rewrite andThen_fst. apply IH; assumption. }
  apply Hgen; [exact Hops | exact Hv|].
  unfold valid_settings in Hv. destruct cfg as [wm sm lm cpr au].
  norm_legacy. lia.
Qed.

Lemma legacy_remaining_bounded_witness :
  let t := fst (LegacyRun.run
                  [LegacyRun.LOnChange; LegacyRun.LStart 5000;
                   LegacyRun.LTick 100; LegacyRun.LTick 90000;
                   LegacyRun.LSkip; LegacyRun.LTick 3]
                  (Legacy.new defaultSettings)) in
  0 <= Legacy.remainingMs t <= Legacy._modeToMs t (Legacy.mode t).
Proof.
  cbv zeta.
  refine (legacy_remaining_bounded defaultSettings _ _ _).
  - unfold valid_settings; simpl; lia.
  - repeat constructor.
Defined.

(** X19. The two copies advance the mode alike: on the same mode, counters
    and configuration, [_advanceMode] of the earlier copy and of
    [src/app.js] give the same mode, counters and [remainingMs], and show
    the listener the same snapshot but for [isRunning]; the earlier copy
    leaves [isRunning] as it was, while [src/app.js] sets it from
    auto-start. *)
Theorem advanceMode_copies_agree (now : Z) (t : Timer) :
  let a := _advanceMode now t in
  let l := Legacy._advanceMode (LegacyRun.ofApp t) in
  Legacy.mode (fst l) = mode (fst a) /\
  Legacy.cycleInRound (fst l) = cycleInRound (fst a) /\
  Legacy.round (fst l) = round (fst a) /\
  Legacy.remainingMs (fst l) = remainingMs (fst a) /\
  Legacy.settings (fst l) = settings (fst a) /\
  Legacy.isRunning (fst l) = isRunning t /\
  isRunning (fst a) = autoStart (settings t) /\
  map (fun s => mkSnapshot (snap_mode s) (snap_remainingMs s)
                  (snap_cycleInRound s) (snap_round s) (snap_totalMs s)
                  false (snap_modeChanged s)) (snapshots (snd l)) =
  map (fun s => mkSnapshot (snap_mode s) (snap_remainingMs s)
                  (snap_cycleInRound s) (snap_round s) (snap_totalMs s)
                  false (snap_modeChanged s)) (snapshots (snd a)).
Proof.
  destruct t as [[wm sm lm cpr au] m c r run sa ea rem iv lt ls].
  norm_legacy. norm_engine.
  destruct m, (cpr <=? c), au, iv, ls; repeat split; reflexivity.
Qed.
